(** * SEC filing alert scraper: a shallow embedding of [src/main.js]

    The development follows the source file top to bottom: the JavaScript
    primitives the handler relies on, the SHA-1 digest behind [feedKey] and
    the canonical id, the classifier [detectFilingType], and the per-feed
    [requestHandler] with its cursor store.  Strings are sequences of bytes
    (the UTF-8 encoding that [crypto] hashes); the character classes below
    are exact on ASCII text. *)

From Stdlib Require Import String Ascii List ZArith Lia Bool Permutation Sorted.
Import ListNotations.

Local Open Scope string_scope.
Local Open Scope list_scope.
Local Open Scope Z_scope.

(** ** JavaScript primitives *)

Module JS.

(** Truthiness of a value that is [null]/[undefined] or a string. *)
Definition truthy (v : option string) : bool :=
  match v with
  | Some s => negb (s =? "")%string
  | None => false
  end.

(** [a || b] when [b] is always a string. *)
Definition or_else (v : option string) (d : string) : string :=
  if truthy v then match v with Some s => s | None => d end else d.

(** [a || null]. *)
Definition or_null (v : option string) : option string :=
  if truthy v then v else None.

Definition lower_ascii (c : ascii) : ascii :=
  let n := N_of_ascii c in
  if ((65 <=? n) && (n <=? 90))%N then ascii_of_N (n + 32) else c.

(** [String.prototype.toLowerCase] on ASCII text: the letters A to Z are
    lowered and every other byte is kept.  The function of the language
    also changes letters outside ASCII (the Kelvin sign U+212A becomes k),
    so a property that compares a text with its lowered form is stated for
    ASCII text. *)
Fixpoint toLowerCase (s : string) : string :=
  match s with
  | EmptyString => EmptyString
  | String c s' => String (lower_ascii c) (toLowerCase s')
  end.

(** [String.prototype.includes]. *)
Fixpoint includes (s sub : string) : bool :=
  String.prefix sub s ||
  match s with
  | EmptyString => false
  | String _ s' => includes s' sub
  end.

(** [Array.prototype.findIndex]: the first index whose element satisfies
    the predicate, [-1] when there is none. *)
Fixpoint findIndex {A} (p : A -> bool) (l : list A) : Z :=
  match l with
  | [] => -1
  | x :: l' =>
      if p x then 0
      else let i := findIndex p l' in if i <? 0 then -1 else i + 1
  end.

(** [Array.prototype.slice(start)] for an integral [start]: a negative
    start counts from the end, and both directions are clamped. *)
Definition slice {A} (start : Z) (l : list A) : list A :=
  let len := Z.of_nat (length l) in
  let from := if start <? 0 then Z.max (len + start) 0 else Z.min start len in
  skipn (Z.to_nat from) l.

(** [Array.prototype.some]. *)
Definition some {A} (p : A -> bool) (l : list A) : bool := existsb p l.

End JS.

(** ** SHA-1 (FIPS 180-4), as used by [crypto.createHash('sha1')] *)

Module SHA1.

Definition w32 (x : Z) : Z := x mod 2 ^ 32.

Definition rotl (n x : Z) : Z :=
  w32 (Z.lor (Z.shiftl x n) (Z.shiftr x (32 - n))).

Definition add32 (x y : Z) : Z := w32 (x + y).

Definition bytes_of_string (s : string) : list Z :=
  map (fun c => Z.of_N (N_of_ascii c)) (list_ascii_of_string s).

(** Big-endian bytes of [x], [n] of them. *)
Fixpoint be_bytes (n : nat) (x : Z) : list Z :=
  match n with
  | O => []
  | S n' => Z.shiftr x (8 * Z.of_nat n') mod 256 :: be_bytes n' x
  end.

Definition pad (msg : list Z) : list Z :=
  let len := Z.of_nat (length msg) in
  let zeros := Z.to_nat ((55 - len) mod 64) in
  msg ++ [128] ++ repeat 0 zeros ++ be_bytes 8 (8 * len).

Fixpoint be_words (fuel : nat) (bs : list Z) : list Z :=
  match fuel, bs with
  | S fuel', b0 :: b1 :: b2 :: b3 :: bs' =>
      (((b0 * 256 + b1) * 256 + b2) * 256 + b3) :: be_words fuel' bs'
  | _, _ => []
  end.

(** The message schedule, newest word first. *)
Fixpoint schedule (n : nat) (rev_w : list Z) : list Z :=
  match n with
  | O => rev_w
  | S n' =>
      let w i := nth i rev_w 0 in
      schedule n'
        (rotl 1 (Z.lxor (Z.lxor (w 2%nat) (w 7%nat)) (Z.lxor (w 13%nat) (w 15%nat)))
           :: rev_w)
  end.

Definition state : Type := Z * Z * Z * Z * Z.

Definition f_k (t : nat) (b c d : Z) : Z * Z :=
  if (t <? 20)%nat then
    (Z.lor (Z.land b c) (Z.land (w32 (Z.lnot b)) d), 1518500249)
  else if (t <? 40)%nat then
    (Z.lxor (Z.lxor b c) d, 1859775393)
  else if (t <? 60)%nat then
    (Z.lor (Z.lor (Z.land b c) (Z.land b d)) (Z.land c d), 2400959708)
  else
    (Z.lxor (Z.lxor b c) d, 3395469782).

Definition round (s : state) (tw : nat * Z) : state :=
  let '(a, b, c, d, e) := s in
  let '(t, w) := tw in
  let '(f, k) := f_k t b c d in
  (add32 (add32 (add32 (add32 (rotl 5 a) f) e) k) w, a, rotl 30 b, c, d).

Definition compress (h : state) (block : list Z) : state :=
  let ws := rev (schedule 64 (rev (be_words 16 block))) in
  let '(a, b, c, d, e) := fold_left round (combine (seq 0 80) ws) h in
  let '(h0, h1, h2, h3, h4) := h in
  (add32 h0 a, add32 h1 b, add32 h2 c, add32 h3 d, add32 h4 e).

Fixpoint blocks (fuel : nat) (h : state) (bs : list Z) : state :=
  match fuel, bs with
  | S fuel', _ :: _ => blocks fuel' (compress h (firstn 64 bs)) (skipn 64 bs)
  | _, _ => h
  end.

Definition init : state :=
  (1732584193, 4023233417, 2562383102, 271733878, 3285377520).

Definition digest (msg : list Z) : state :=
  let p := pad msg in blocks (length p) init p.

Definition hex_digit (n : Z) : ascii :=
  if n <? 10 then ascii_of_N (Z.to_N (48 + n)) else ascii_of_N (Z.to_N (87 + n)).

Fixpoint hex_word (n : nat) (x : Z) : string :=
  match n with
  | O => EmptyString
  | S n' => String (hex_digit (Z.shiftr x (4 * Z.of_nat n') mod 16)) (hex_word n' x)
  end.

(** [crypto.createHash('sha1').update(s).digest('hex')]. *)
Definition hex (s : string) : string :=
  let '(h0, h1, h2, h3, h4) := digest (bytes_of_string s) in
  (hex_word 8 h0 ++ hex_word 8 h1 ++ hex_word 8 h2 ++ hex_word 8 h3 ++ hex_word 8 h4)%string.

End SHA1.

(** ** Regular expressions of the classifier

    The source builds [\b<token>\b] with flag [i] from literal tokens (every
    metacharacter is escaped) and uses [/Form\s*(\d+[A-Z]?)/i].  Both are
    matched here by direct scanning; without the [u] flag a case-insensitive
    match never identifies an ASCII character with a non-ASCII one. *)

Module Regex.

Definition in_range (lo hi : N) (c : ascii) : bool :=
  let n := N_of_ascii c in ((lo <=? n) && (n <=? hi))%N.

Definition isDigit (c : ascii) : bool := in_range 48 57 c.

Definition isLetter (c : ascii) : bool := in_range 65 90 c || in_range 97 122 c.

(** [\w]. *)
Definition isWordChar (c : ascii) : bool :=
  isDigit c || isLetter c || (N_of_ascii c =? 95)%N.

(** [\s] on ASCII: tab, line feed, vertical tab, form feed, carriage
    return and space. *)
Definition isSpace (c : ascii) : bool :=
  in_range 9 13 c || (N_of_ascii c =? 32)%N.

Definition head (s : string) : option ascii :=
  match s with
  | EmptyString => None
  | String c _ => Some c
  end.

Definition isWord (c : option ascii) : bool :=
  match c with
  | Some c => isWordChar c
  | None => false
  end.

(** [\b] between the character before and the character after. *)
Definition boundary (prev next : option ascii) : bool :=
  xorb (isWord prev) (isWord next).

(** A literal matched case-insensitively at the start of [s]; gives the
    last character consumed (or [prev]) and the rest of the input. *)
Fixpoint match_lit (prev : option ascii) (lit s : string)
  : option (option ascii * string) :=
  match lit with
  | EmptyString => Some (prev, s)
  | String t lit' =>
      match s with
      | EmptyString => None
      | String c s' =>
          if Ascii.eqb (JS.lower_ascii t) (JS.lower_ascii c)
          then match_lit (Some c) lit' s'
          else None
      end
  end.

Definition word_at (prev : option ascii) (lit s : string) : bool :=
  boundary prev (head s) &&
  match match_lit prev lit s with
  | Some (last, rest) => boundary last (head rest)
  | None => false
  end.

Fixpoint word_from (prev : option ascii) (lit s : string) : bool :=
  word_at prev lit s ||
  match s with
  | EmptyString => false
  | String c s' => word_from (Some c) lit s'
  end.

(** [new RegExp('\\b' + escaped(lit) + '\\b', 'i').test(s)]. *)
Definition test_word (lit s : string) : bool := word_from None lit s.

(** The longest prefix whose characters satisfy [p], and the rest. *)
Fixpoint span (p : ascii -> bool) (s : string) : string * string :=
  match s with
  | EmptyString => (EmptyString, EmptyString)
  | String c s' =>
      if p c then let '(a, b) := span p s' in (String c a, b)
      else (EmptyString, s)
  end.

(** [/Form\s*(\d+[A-Z]?)/i] anchored at the start of [s]: the text
    matched.  Blanks and digits are disjoint classes, so the greedy
    choice is the only one that can succeed. *)
Definition form_at (s : string) : option string :=
  match match_lit None "Form" s with
  | None => None
  | Some (_, rest) =>
      let '(blanks, r1) := span isSpace rest in
      let '(digits, r2) := span isDigit r1 in
      if (digits =? "")%string then None
      else
        let suffix :=
          match r2 with
          | String c _ => if isLetter c then String c EmptyString else EmptyString
          | EmptyString => EmptyString
          end in
        Some (substring 0 4 s ++ blanks ++ digits ++ suffix)%string
  end.

(** [s.match(/Form\s*(\d+[A-Z]?)/i)], component [0] of the leftmost match. *)
Fixpoint match_form (s : string) : option string :=
  match form_at s with
  | Some m => Some m
  | None =>
      match s with
      | EmptyString => None
      | String _ s' => match_form s'
      end
  end.

(** [/10-?q/i.test(t)] and its siblings: the two letters of the pattern
    with an optional dash between them, anywhere in [t]. *)
Definition test_dashed (a b t : string) : bool :=
  let l := JS.toLowerCase t in
  JS.includes l (a ++ b)%string || JS.includes l (a ++ "-" ++ b)%string.

End Regex.

(** ** The classifier *)

Definition tokens : list string :=
  ["10-K"; "10Q"; "10-Q"; "8-K"; "8K"; "SC 13D"; "13F"; "20-F"; "S-1"; "424B"; "4"; "3"].

(** The body of the [for] loop once [re.test(candidate)] has succeeded. *)
Definition normalize_token (t : string) : string :=
  if Regex.test_dashed "10" "q" t then "10-Q"
  else if Regex.test_dashed "10" "k" t then "10-K"
  else if Regex.test_dashed "8" "k" t then "8-K"
  else t.

Fixpoint first_token (ts : list string) (candidate : string) : option string :=
  match ts with
  | [] => None
  | t :: ts' =>
      if Regex.test_word t candidate then Some (normalize_token t)
      else first_token ts' candidate
  end.

Definition detectFilingType (title summary : option string) : option string :=
  let candidate := (JS.or_else title "" ++ " " ++ JS.or_else summary "")%string in
  match first_token tokens candidate with
  | Some label => Some label
  | None => Regex.match_form candidate
  end.

(** ** Data model *)

(** An entry as [parseAtom] hands it over; [None] is [null] or [undefined]. *)
Record RawEntry := mkRaw {
  r_id : option string;
  r_title : option string;
  r_link : option string;
  r_updated : option string;
  r_summary : option string;
  r_content : option string
}.

(** An element of [normalized].  [e_updated] is the instant, in
    milliseconds since the epoch, that the ISO string written by
    [toISOString] denotes and that [new Date(...).getTime()] reads back. *)
Record Entry := mkEntry {
  e_id : string;
  e_title : option string;
  e_link : option string;
  e_updated : option Z;
  e_summary : option string;
  e_content : option string
}.

(** The actor input, for the options the handler reads.  A [filingTypes]
    that is not an array behaves as the empty list; [null] among its
    elements behaves as the empty string. *)
Record Input := mkInput {
  filingTypes : list string;
  maxEntriesPerFeed : Z;
  includeFullFiling : bool;
  webhookUrl : string
}.

(** A row pushed to the dataset ([scrapedAt], the wall clock, is left out). *)
Record Item := mkItem {
  feedUrl : string;
  company : option string;
  filingId : string;
  filingType : option string;
  title : option string;
  summary : option string;
  link : option string;
  publishedAt : option Z;
  fullFilingText : option string
}.

(** The body posted to the webhook. *)
Record Payload := mkPayload {
  p_filingId : string;
  p_filingType : option string;
  p_title : option string;
  p_link : option string;
  p_publishedAt : option Z;
  p_feedUrl : string
}.

(** What the key-value store holds under a feed's key, and what the
    handler passes to [setValue]: a bare string (the historic form) or an
    object with a [lastSeenId] ([updatedAt], the wall clock, is left out). *)
Inductive Stored :=
| Bare (s : string)
| Structured (lastSeenId : option string) (feed : string).

(** Completion of a piece of JavaScript: a value, or an exception. *)
Inductive completion (A : Type) :=
| Normal (a : A)
| Throw (err : string).
Arguments Normal {A} a.
Arguments Throw {A} err.

Definition bind {A B} (c : completion A) (k : A -> completion B) : completion B :=
  match c with
  | Normal a => k a
  | Throw err => Throw err
  end.

Notation "x <- c ;; k" := (bind c (fun x => k))
  (at level 61, c at next level, right associativity).

(** ** Helpers of the handler *)

Definition feedKey (url : string) : string := ("sec_feed_last_" ++ SHA1.hex url)%string.

(** [e.id || e.link || sha1(e.title || e.summary || '')]. *)
Definition canonical_id (e : RawEntry) : string :=
  JS.or_else (r_id e)
    (JS.or_else (r_link e)
       (SHA1.hex (JS.or_else (r_title e) (JS.or_else (r_summary e) "")))).

(** The sort key of the comparator: [a.updated ? getTime() : 0]. *)
Definition time_of (e : Entry) : Z :=
  match e_updated e with
  | Some t => t
  | None => 0
  end.

Definition le_time (a b : Entry) : Prop := time_of a <= time_of b.

(** [Array.prototype.sort] with the comparator [ta - tb]: the sort is
    stable, so an element goes in front of the first element that is not
    older than it is. *)
Fixpoint insert_by_time (x : Entry) (l : list Entry) : list Entry :=
  match l with
  | [] => [x]
  | y :: l' =>
      if time_of x <=? time_of y then x :: l else y :: insert_by_time x l'
  end.

Fixpoint sort_by_updated (l : list Entry) : list Entry :=
  match l with
  | [] => []
  | x :: l' => insert_by_time x (sort_by_updated l')
  end.

(** The value read back from the store: lines 139-146. *)
Definition read_cursor (stored : option Stored) : option string :=
  match stored with
  | None => None
  | Some (Bare s) => JS.or_null (Some s)
  | Some (Structured l _) => JS.or_null l
  end.

(** [KeyValueStore.setValue(key, value, options)] of the crawler library,
    on the entry of one key.  When [options.contentType] is given the value
    must be a string, a Buffer or a stream: an object is refused with an
    [ArgumentError] and nothing is stored.  Without that option an object
    is stored as JSON. *)
Definition setValue (kv : option Stored) (value : Stored)
  (contentType : option string) : completion (option Stored) :=
  match value with
  | Bare _ => Normal (Some value)
  | Structured _ _ =>
      if JS.truthy contentType
      then Throw "ArgumentError: the value must be a String, Buffer or Stream when options.contentType is specified"
      else Normal (Some value)
  end.

(** [idx] and [newItems], lines 186-187. *)
Definition find_cursor (lastSeenId : option string) (toConsider : list Entry) : Z :=
  if JS.truthy lastSeenId
  then JS.findIndex (fun e => (e_id e =? JS.or_else lastSeenId "")%string) toConsider
  else -1.

Definition newItems (lastSeenId : option string) (toConsider : list Entry) : list Entry :=
  let idx := find_cursor lastSeenId toConsider in
  if idx >=? 0 then JS.slice (idx + 1) toConsider else toConsider.

(** The type filter, lines 195-197; [false] means the entry is skipped. *)
Definition passes_filter (types : list string) (detectedType : option string) : bool :=
  if (0 <? Z.of_nat (length types)) then
    let lowered := JS.toLowerCase (JS.or_else detectedType "") in
    JS.some (fun t =>
               (JS.toLowerCase t =? lowered)%string
               || JS.includes (JS.toLowerCase (JS.or_else detectedType "")) (JS.toLowerCase t))
            types
  else true.

(** The mutable state of the [for] loop over [newItems]. *)
Record Loop := mkLoop {
  newLastSeen : option string;
  pushed : list Item;
  posted : list Payload
}.

Section Engine.

(** [new Date(s).getTime()]: [None] stands for an invalid date. *)
Variable Date_parse : string -> option Z.

(** The text of a successful [fetch] of a link, [None] otherwise. *)
Variable fetch_text : string -> option string.

Variable input : Input.
Variable url : string.
Variable userData_company : option string.

(** The callback of [entries.map], lines 150-158.  [toISOString] throws
    a [RangeError] on an invalid date. *)
Definition normalize_entry (e : RawEntry) : completion Entry :=
  updated <-
    (if JS.truthy (r_updated e) then
       match Date_parse (JS.or_else (r_updated e) "") with
       | Some t => Normal (Some t)
       | None => Throw "RangeError: Invalid time value"
       end
     else Normal None) ;;
  Normal {| e_id := canonical_id e;
            e_title := r_title e;
            e_link := r_link e;
            e_updated := updated;
            e_summary := JS.or_null (r_summary e);
            e_content := JS.or_null (r_content e) |}.

(** The timestamp of the entry, when it has one, reads as a date. *)
Definition parses (e : RawEntry) : Prop :=
  JS.truthy (r_updated e) = true ->
  Date_parse (JS.or_else (r_updated e) "") <> None.

Fixpoint normalize (entries : list RawEntry) : completion (list Entry) :=
  match entries with
  | [] => Normal []
  | e :: es =>
      n <- normalize_entry e ;;
      ns <- normalize es ;;
      Normal (n :: ns)
  end.

(** [toConsider], line 169. *)
Definition cap (sorted : list Entry) : list Entry :=
  JS.slice (- Z.abs (maxEntriesPerFeed input)) sorted.

Definition toConsider (entries : list RawEntry) : completion (list Entry) :=
  normalized <- normalize entries ;;
  Normal (cap (sort_by_updated normalized)).

Definition make_item (entry : Entry) (detectedType fullText : option string) : Item :=
  {| feedUrl := url;
     company := userData_company;
     filingId := e_id entry;
     filingType := detectedType;
     title := e_title entry;
     summary := e_summary entry;
     link := e_link entry;
     publishedAt := e_updated entry;
     fullFilingText := fullText |}.

Definition make_payload (entry : Entry) (detectedType : option string) : Payload :=
  {| p_filingId := e_id entry;
     p_filingType := detectedType;
     p_title := e_title entry;
     p_link := e_link entry;
     p_publishedAt := e_updated entry;
     p_feedUrl := url |}.

(** One iteration of the loop over [newItems], lines 191-257. *)
Definition process_entry (st : Loop) (entry : Entry) : Loop :=
  let detectedType := detectFilingType (e_title entry) (e_summary entry) in
  if passes_filter (filingTypes input) detectedType then
    let fullText :=
      if includeFullFiling input && JS.truthy (e_link entry)
      then fetch_text (JS.or_else (e_link entry) "")
      else None in
    {| newLastSeen := Some (e_id entry);
       pushed := pushed st ++ [make_item entry detectedType fullText];
       posted := if JS.truthy (Some (webhookUrl input))
                 then posted st ++ [make_payload entry detectedType]
                 else posted st |}
  else
    {| newLastSeen := Some (e_id entry);
       pushed := pushed st;
       posted := posted st |}.

(** The outcome of one poll: the store entry of the feed, the rows pushed
    and the webhook bodies posted. *)
Definition Poll : Type := option Stored * list Item * list Payload.

(** [requestHandler] from the parsed entries on.  The first loop over
    [toConsider] (lines 173-183) changes nothing and is omitted.  The
    write of lines 260-268 sits in a [try]: when [setValue] throws, the
    [catch] logs a warning and the store stays as it was. *)
Definition requestHandler (entries : list RawEntry) (kv : option Stored)
  : completion Poll :=
  match entries with
  | [] => Normal (kv, [], [])
  | _ :: _ =>
      let lastSeenId := read_cursor kv in
      window <- toConsider entries ;;
      let st := fold_left process_entry (newItems lastSeenId window)
                  {| newLastSeen := lastSeenId; pushed := []; posted := [] |} in
      let latest :=
        match window with
        | [] => newLastSeen st
        | _ :: _ => Some (e_id (last window (mkEntry "" None None None None None)))
        end in
      let kv' :=
        if JS.truthy latest then
          match setValue kv (Structured latest url) (Some "application/json") with
          | Normal written => written
          | Throw _ => kv
          end
        else kv in
      Normal (kv', pushed st, posted st)
  end.

(** A sequence of polls of the feed, each starting from the store the
    previous one left.  A poll that throws has neither pushed a row nor
    touched the store. *)
Fixpoint run (polls : list (list RawEntry)) (kv : option Stored)
  : option Stored * list Item * list Payload :=
  match polls with
  | [] => (kv, [], [])
  | entries :: rest =>
      match requestHandler entries kv with
      | Normal (kv', rows, bodies) =>
          let '(kv'', rows', bodies') := run rest kv' in
          (kv'', rows ++ rows', bodies ++ bodies')
      | Throw _ => run rest kv
      end
  end.

(** Whether the loop body emits the entry. *)
Definition accepted (entry : Entry) : bool :=
  passes_filter (filingTypes input) (detectFilingType (e_title entry) (e_summary entry)).

(** The row the loop body builds for an entry. *)
Definition item_of (entry : Entry) : Item :=
  make_item entry (detectFilingType (e_title entry) (e_summary entry))
    (if includeFullFiling input && JS.truthy (e_link entry)
     then fetch_text (JS.or_else (e_link entry) "")
     else None).

Definition payload_of (entry : Entry) : Payload :=
  make_payload entry (detectFilingType (e_title entry) (e_summary entry)).

End Engine.

(** ** An instance of [Date_parse]

    The ECMAScript date-time string format with every field present and the
    offset [Z]: [YYYY-MM-DDTHH:mm:ssZ] and [YYYY-MM-DDTHH:mm:ss.sssZ].  The
    examples below only use such strings, and strings that no engine reads
    as a date. *)

Module IsoDate.

Fixpoint number (s : string) : option Z :=
  match s with
  | EmptyString => Some 0
  | String c s' =>
      if Regex.isDigit c then
        match number s' with
        | Some n =>
            Some ((Z.of_N (N_of_ascii c) - 48) * 10 ^ Z.of_nat (String.length s') + n)
        | None => None
        end
      else None
  end.

Definition field (i n : nat) (s : string) : option Z := number (substring i n s).

Definition sep (i : nat) (c s : string) : bool := (substring i 1 s =? c)%string.

Definition leap (y : Z) : bool :=
  ((y mod 4 =? 0) && negb (y mod 100 =? 0)) || (y mod 400 =? 0).

Definition days_in_month (y m : Z) : Z :=
  if m =? 2 then (if leap y then 29 else 28)
  else if (m =? 4) || (m =? 6) || (m =? 9) || (m =? 11) then 30
  else 31.

(** Days from 1970-01-01 to the given civil date. *)
Definition days_from_civil (y m d : Z) : Z :=
  let y' := if m <=? 2 then y - 1 else y in
  let era := y' / 400 in
  let yoe := y' - era * 400 in
  let doy := (153 * (if 2 <? m then m - 3 else m + 9) + 2) / 5 + d - 1 in
  let doe := yoe * 365 + yoe / 4 - yoe / 100 + doy in
  era * 146097 + doe - 719468.

Definition Date_parse (s : string) : option Z :=
  let n := String.length s in
  let shape :=
    sep 4 "-" s && sep 7 "-" s && sep 10 "T" s && sep 13 ":" s && sep 16 ":" s
    && (((n =? 20)%nat && sep 19 "Z" s)
        || ((n =? 24)%nat && sep 19 "." s && sep 23 "Z" s)) in
  if shape then
    match field 0 4 s, field 5 2 s, field 8 2 s,
          field 11 2 s, field 14 2 s, field 17 2 s,
          (if (n =? 24)%nat then field 20 3 s else Some 0) with
    | Some y, Some m, Some d, Some h, Some mi, Some sec, Some ms =>
        if (1 <=? m) && (m <=? 12) && (1 <=? d) && (d <=? days_in_month y m)
           && (h <=? 23) && (mi <=? 59) && (sec <=? 59)
        then Some ((((days_from_civil y m d * 24 + h) * 60 + mi) * 60 + sec) * 1000 + ms)
        else None
    | _, _, _, _, _, _, _ => None
    end
  else None.

End IsoDate.


(** ** Sample feeds *)

Module Sample.

Definition apple : string :=
  "https://www.sec.gov/cgi-bin/browse-edgar?action=getcompany&CIK=0000320193&output=atom".

Definition cik : option string := Some "0000320193".

Definition no_fetch (link : string) : option string := None.

(** [filingTypes = []]: every type is accepted. *)
Definition accept_all : Input :=
  {| filingTypes := []; maxEntriesPerFeed := 50;
     includeFullFiling := false; webhookUrl := "" |}.

Definition only_10k : Input :=
  {| filingTypes := ["10-K"]; maxEntriesPerFeed := 50;
     includeFullFiling := false; webhookUrl := "https://hooks.example.com/sec" |}.

Definition cap_two : Input :=
  {| filingTypes := []; maxEntriesPerFeed := 2;
     includeFullFiling := false; webhookUrl := "" |}.

Definition cap_minus_two : Input :=
  {| filingTypes := []; maxEntriesPerFeed := -2;
     includeFullFiling := false; webhookUrl := "" |}.

Definition cap_zero : Input :=
  {| filingTypes := []; maxEntriesPerFeed := 0;
     includeFullFiling := false; webhookUrl := "" |}.

Definition filing (id title updated : string) : RawEntry :=
  {| r_id := Some id; r_title := Some title; r_link := None;
     r_updated := Some updated; r_summary := None; r_content := None |}.

Definition jan1 : RawEntry := filing "urn:a" "8-K - Current report" "2024-01-01T09:00:00Z".
Definition jan2 : RawEntry := filing "urn:b" "10-Q - Quarterly report" "2024-01-02T09:00:00Z".
Definition jan3 : RawEntry := filing "urn:c" "10-K - Annual report" "2024-01-03T09:00:00Z".
Definition jan4 : RawEntry := filing "urn:d" "8-K - Current report" "2024-01-04T09:00:00Z".
Definition jan5 : RawEntry := filing "urn:e" "8-K/A - Amended report" "2024-01-05T09:00:00Z".

(** A second entry that reuses the id of [jan1]. *)
Definition jan2_again : RawEntry :=
  filing "urn:a" "8-K - Current report" "2024-01-02T09:00:00Z".

Definition undated : RawEntry :=
  {| r_id := Some "urn:u"; r_title := Some "8-K - Current report"; r_link := None;
     r_updated := None; r_summary := None; r_content := None |}.

Definition dec1969 : RawEntry := filing "urn:old" "10-K - Annual report" "1969-12-31T23:59:59Z".

Definition garbled : RawEntry := filing "urn:g" "10-K - Annual report" "not a date".

(** Entries without id and link. *)
Definition anonymous (title summary : string) : RawEntry :=
  {| r_id := Some ""; r_title := Some title; r_link := None;
     r_updated := None; r_summary := Some summary; r_content := None |}.

Definition entry_of (id title : string) (updated : Z) : Entry :=
  {| e_id := id; e_title := Some title; e_link := None;
     e_updated := Some updated; e_summary := None; e_content := None |}.

Definition n_jan1 : Entry := entry_of "urn:a" "8-K - Current report" 1704099600000.
Definition n_jan2 : Entry := entry_of "urn:b" "10-Q - Quarterly report" 1704186000000.
Definition n_jan3 : Entry := entry_of "urn:c" "10-K - Annual report" 1704272400000.
Definition n_jan4 : Entry := entry_of "urn:d" "8-K - Current report" 1704358800000.
Definition n_jan5 : Entry := entry_of "urn:e" "8-K/A - Amended report" 1704445200000.
Definition n_jan2_again : Entry := entry_of "urn:a" "8-K - Current report" 1704186000000.
Definition n_dec1969 : Entry := entry_of "urn:old" "10-K - Annual report" (-1000).
Definition n_undated : Entry :=
  {| e_id := "urn:u"; e_title := Some "8-K - Current report"; e_link := None;
     e_updated := None; e_summary := None; e_content := None |}.

(** Five filings in the order the feed lists them. *)
Definition five : list RawEntry := [jan3; jan1; jan5; jan2; jan4].
Definition n_five : list Entry := [n_jan3; n_jan1; n_jan5; n_jan2; n_jan4].

End Sample.

(** ** Character tests on whole strings *)

Definition chars (s : string) : list ascii := list_ascii_of_string s.

(** Some character of [s] is a decimal digit. *)
Definition has_digit (s : string) : bool := existsb Regex.isDigit (chars s).

(** The labels the token loop of [detectFilingType] can return. *)
Definition labels : list string :=
  ["10-K"; "10-Q"; "8-K"; "SC 13D"; "13F"; "20-F"; "S-1"; "424B"; "4"; "3"].

Definition lower_opt (v : option string) : option string :=
  option_map JS.toLowerCase v.

(** A digit of the hexadecimal text written by [digest('hex')]. *)
Definition isLowerHex (c : ascii) : bool :=
  Regex.isDigit c || Regex.in_range 97 102 c.

(** Every byte of the string is an ASCII character. *)
Definition ascii_only (s : string) : Prop :=
  Forall (fun c => (N_of_ascii c < 128)%N) (chars s).

(** The same for a text that may be absent. *)
Definition ascii_opt (v : option string) : Prop :=
  match v with
  | Some s => ascii_only s
  | None => True
  end.

(** ** Percent-encoding (ECMAScript [encodeURIComponent], [decodeURIComponent])

    Both work here on the UTF-8 bytes of the text: encoding escapes every
    byte that is not an unreserved character; decoding accepts an escaped
    byte sequence only if it is well-formed UTF-8 and throws a [URIError]
    otherwise. *)

Module URI.

Definition unreserved (c : ascii) : bool :=
  Regex.isDigit c || Regex.isLetter c || existsb (Ascii.eqb c) (chars "-_.!~*'()").

Definition hex_upper (n : N) : ascii :=
  if (n <? 10)%N then ascii_of_N (48 + n) else ascii_of_N (55 + n).

Fixpoint encodeURIComponent (s : string) : string :=
  match s with
  | EmptyString => EmptyString
  | String c s' =>
      if unreserved c then String c (encodeURIComponent s')
      else
        let n := N_of_ascii c in
        String "%" (String (hex_upper (n / 16))
                      (String (hex_upper (n mod 16)) (encodeURIComponent s')))
  end.

Definition hex_value (c : ascii) : option N :=
  let n := N_of_ascii c in
  if Regex.isDigit c then Some (n - 48)%N
  else if Regex.in_range 65 70 c then Some (n - 55)%N
  else if Regex.in_range 97 102 c then Some (n - 87)%N
  else None.

(** What the decoder waits for: any character, or one more continuation
    byte within [lo..hi], with [more] further ones after it. *)
Inductive Expect :=
| Any
| Continuation (more : nat) (lo hi : N).

(** Where the decoder stands inside an escape [%XY]. *)
Inductive Escape :=
| Outside
| High
| Low (h : N).

(** The number of continuation bytes after a leading byte, and the range
    of the first of them (well-formed UTF-8). *)
Definition lead (b : N) : option (nat * N * N) :=
  if ((194 <=? b) && (b <=? 223))%N then Some (0%nat, 128, 191)%N
  else if (b =? 224)%N then Some (1%nat, 160, 191)%N
  else if ((225 <=? b) && (b <=? 236))%N then Some (1%nat, 128, 191)%N
  else if (b =? 237)%N then Some (1%nat, 128, 159)%N
  else if ((238 <=? b) && (b <=? 239))%N then Some (1%nat, 128, 191)%N
  else if (b =? 240)%N then Some (2%nat, 144, 191)%N
  else if ((241 <=? b) && (b <=? 243))%N then Some (2%nat, 128, 191)%N
  else if (b =? 244)%N then Some (2%nat, 128, 143)%N
  else None.

Definition emit (c : ascii) (rest : completion string) : completion string :=
  s <- rest ;; Normal (String c s).

Definition malformed : completion string := Throw "URIError: URI malformed".

Fixpoint decode (e : Expect) (esc : Escape) (s : string) : completion string :=
  match s with
  | EmptyString =>
      match e, esc with
      | Any, Outside => Normal EmptyString
      | _, _ => malformed
      end
  | String c s' =>
      match esc with
      | Outside =>
          if Ascii.eqb c "%" then decode e High s'
          else match e with
               | Any => emit c (decode Any Outside s')
               | Continuation _ _ _ => malformed
               end
      | High =>
          match hex_value c with
          | Some h => decode e (Low h) s'
          | None => malformed
          end
      | Low h =>
          match hex_value c with
          | None => malformed
          | Some l =>
              let b := (16 * h + l)%N in
              match e with
              | Any =>
                  if (b <? 128)%N then emit (ascii_of_N b) (decode Any Outside s')
                  else
                    match lead b with
                    | Some (more, lo, hi) =>
                        emit (ascii_of_N b) (decode (Continuation more lo hi) Outside s')
                    | None => malformed
                    end
              | Continuation more lo hi =>
                  if ((lo <=? b) && (b <=? hi))%N then
                    emit (ascii_of_N b)
                      (decode (match more with
                               | O => Any
                               | S more' => Continuation more' 128 191
                               end) Outside s')
                  else malformed
              end
          end
      end
  end.

Definition decodeURIComponent (s : string) : completion string :=
  decode Any Outside s.

End URI.

(** ** Building the requests: lines 27-38 and 280-287 *)

Definition feed_template (id : string) : string :=
  ("https://www.sec.gov/cgi-bin/browse-edgar?action=getcompany&CIK="
   ++ URI.encodeURIComponent id ++ "&output=atom")%string.

Definition builtFeeds (cikOrTickerList : list string) : list string :=
  match cikOrTickerList with
  | [] => []
  | _ :: _ => map feed_template cikOrTickerList
  end.

(** [Array.from(new Set(l))]: the elements in order of first occurrence. *)
Fixpoint unique (seen l : list string) : list string :=
  match l with
  | [] => []
  | x :: l' =>
      if existsb (String.eqb x) seen then unique seen l'
      else x :: unique (x :: seen) l'
  end.

Definition feeds (startUrls cikOrTickerList : list string) : list string :=
  unique [] (startUrls ++ builtFeeds cikOrTickerList).

(** [/CIK=([^&]+)/i] anchored at the start of [s]: the captured group. *)
Definition cik_at (s : string) : option string :=
  match Regex.match_lit None "CIK=" s with
  | None => None
  | Some (_, rest) =>
      let '(value, _) := Regex.span (fun c => negb (Ascii.eqb c "&")) rest in
      if (value =? "")%string then None else Some value
  end.

(** [u.match(/CIK=([^&]+)/i)], component [1] of the leftmost match. *)
Fixpoint match_cik (s : string) : option string :=
  match cik_at s with
  | Some v => Some v
  | None =>
      match s with
      | EmptyString => None
      | String _ s' => match_cik s'
      end
  end.

(** The [try] block of [startRequests]: an exception leaves [company] null. *)
Definition company_of (u : string) : option string :=
  match match_cik u with
  | None => None
  | Some v =>
      match URI.decodeURIComponent v with
      | Normal c => Some c
      | Throw _ => None
      end
  end.

Record Request := mkRequest {
  req_url : string;
  req_company : option string
}.

Definition startRequests (fs : list string) : list Request :=
  map (fun u => {| req_url := u; req_company := company_of u |}) fs.

(** How the program starts: it exits with a code, or hands the requests to
    the crawler. *)
Inductive Startup :=
| Exit (exitCode : Z)
| Crawl (requests : list Request).

Definition startup (startUrls cikOrTickerList : list string) : Startup :=
  match feeds startUrls cikOrTickerList with
  | [] => Exit 1
  | fs => Crawl (startRequests fs)
  end.

(** ** Reading the feed document: [parseAtom]

    The Cheerio queries on one element are taken as given: the text of the
    first descendant with a tag name (empty when there is none) and the
    [href] attribute of a link ([None] when it is missing). *)

Fixpoint trimStart (s : string) : string :=
  match s with
  | EmptyString => EmptyString
  | String c s' => if Regex.isSpace c then trimStart s' else s
  end.

Fixpoint trimEnd (s : string) : string :=
  match s with
  | EmptyString => EmptyString
  | String c s' =>
      let t := trimEnd s' in
      if Regex.isSpace c && (t =? "")%string then EmptyString else String c t
  end.

(** [String.prototype.trim]. *)
Definition trim (s : string) : string := trimEnd (trimStart s).

(** [a || b] on two strings, and [a || null]. *)
Definition first_nonempty (a b : string) : string :=
  if (a =? "")%string then b else a.

Definition text_or_null (a : string) : option string :=
  if (a =? "")%string then None else Some a.

Record AtomElement := mkAtomElement {
  q_id : string;
  q_guid : string;
  q_link_href : option string;
  q_link_text : string;
  q_alternate_href : option string;
  q_title : string;
  q_updated : string;
  q_pubDate : string;
  q_summary : string;
  q_content : string
}.

Record RssElement := mkRssElement {
  i_guid : string;
  i_link : string;
  i_title : string;
  i_pubDate : string;
  i_description : string
}.

(** The callback of [$('entry').each], lines 53-68. *)
Definition parse_entry (el : AtomElement) : RawEntry :=
  let link :=
    if JS.truthy (q_link_href el) then q_link_href el
    else text_or_null (q_link_text el) in
  {| r_id := Some (first_nonempty (trim (q_id el)) (trim (q_guid el)));
     r_title := text_or_null (trim (q_title el));
     r_link := if JS.truthy link then link else q_alternate_href el;
     r_updated := text_or_null (first_nonempty (trim (q_updated el)) (trim (q_pubDate el)));
     r_summary := text_or_null (first_nonempty (trim (q_summary el)) (trim (q_content el)));
     r_content := text_or_null (trim (q_content el)) |}.

(** The callback of [$('item').each], lines 71-79. *)
Definition parse_item (el : RssElement) : RawEntry :=
  {| r_id := Some (first_nonempty (trim (i_guid el)) (trim (i_link el)));
     r_title := text_or_null (trim (i_title el));
     r_link := text_or_null (trim (i_link el));
     r_updated := text_or_null (trim (i_pubDate el));
     r_summary := text_or_null (trim (i_description el));
     r_content := None |}.

Definition parseAtom (entryEls : list AtomElement) (itemEls : list RssElement)
  : list RawEntry :=
  match map parse_entry entryEls with
  | [] => map parse_item itemEls
  | entries => entries
  end.

(** The text is empty or does not begin with a blank. *)
Definition starts_clean (s : string) : Prop :=
  match s with
  | EmptyString => True
  | String c _ => Regex.isSpace c = false
  end.

(** [null], or a non-empty text without blanks at either end. *)
Definition null_or_text (v : option string) : Prop :=
  v = None \/ exists s, v = Some s /\ s <> "" /\ trim s = s.

(** The default of [filingTypes], line 19. *)
Definition default_filingTypes : list string := ["10-K"; "10-Q"; "8-K"].

(** ** Basic facts about the JavaScript primitives *)

Lemma truthy_some (s : string) : s <> "" -> JS.truthy (Some s) = true.
Proof.
  intros H. unfold JS.truthy. destruct (String.eqb_spec s ""); [contradiction | reflexivity].
Qed.

Lemma truthy_inv (v : option string) :
  JS.truthy v = true -> exists s, v = Some s /\ s <> "".
Proof.
  destruct v as [s|]; simpl; [|discriminate].
  destruct (String.eqb_spec s ""); [discriminate|]. intros _. now exists s.
Qed.

Lemma or_else_truthy (v : option string) (d s : string) :
  v = Some s -> s <> "" -> JS.or_else v d = s.
Proof.
  intros -> H. unfold JS.or_else. now rewrite truthy_some.
Qed.

Lemma or_else_falsy (v : option string) (d : string) :
  JS.truthy v = false -> JS.or_else v d = d.
Proof.
  intros H. unfold JS.or_else. now rewrite H.
Qed.

Lemma or_else_nonempty (v : option string) (d : string) :
  d <> "" -> JS.or_else v d <> "".
Proof.
  intros Hd. unfold JS.or_else. destruct (JS.truthy v) eqn:E; [|exact Hd].
  apply truthy_inv in E as (s & -> & Hs). exact Hs.
Qed.

Lemma findIndex_lower {A} (p : A -> bool) (l : list A) : -1 <= JS.findIndex p l.
Proof.
  induction l as [|x l IH]; simpl; [lia|].
  destruct (p x); [lia|]. destruct (Z.ltb_spec (JS.findIndex p l) 0); lia.
Qed.

Lemma findIndex_none {A} (p : A -> bool) (l : list A) :
  (forall x, In x l -> p x = false) -> JS.findIndex p l = -1.
Proof.
  induction l as [|x l IH]; simpl; intros H; [reflexivity|].
  rewrite (H x (or_introl eq_refl)), IH by (intros; apply H; now right).
  reflexivity.
Qed.

Lemma findIndex_first {A} (p : A -> bool) (pre post : list A) (x : A) :
  (forall y, In y pre -> p y = false) -> p x = true ->
  JS.findIndex p (pre ++ x :: post) = Z.of_nat (length pre).
Proof.
  induction pre as [|y pre IH]; simpl; intros Hpre Hx.
  - now rewrite Hx.
  - rewrite (Hpre y (or_introl eq_refl)), IH by (auto; intros; apply Hpre; now right).
    destruct (Z.ltb_spec (Z.of_nat (length pre)) 0); lia.
Qed.

Lemma findIndex_found {A} (p : A -> bool) (l : list A) :
  (exists x, In x l /\ p x = true) ->
  exists pre x post, l = pre ++ x :: post /\ p x = true
                     /\ (forall y, In y pre -> p y = false).
Proof.
  induction l as [|a l IH]; intros (x & Hin & Hx); [destruct Hin|].
  destruct (p a) eqn:Ea.
  - exists [], a, l. repeat split; auto. intros y [].
  - destruct Hin as [->|Hin]; [congruence|].
    destruct IH as (pre & z & post & -> & Hz & Hpre); [now exists x|].
    exists (a :: pre), z, post. repeat split; auto.
    intros y [<-|Hy]; auto.
Qed.

Lemma slice_nonneg {A} (n : nat) (l : list A) :
  JS.slice (Z.of_nat n) l = skipn n l.
Proof.
  unfold JS.slice. destruct (Z.ltb_spec (Z.of_nat n) 0); [lia|].
  destruct (Z.min_spec (Z.of_nat n) (Z.of_nat (length l))) as [[H1 ->]|[H1 ->]].
  - now rewrite Nat2Z.id.
  - rewrite Nat2Z.id, !skipn_all2; auto; lia.
Qed.

Lemma slice_after {A} (pre post : list A) (x : A) :
  JS.slice (Z.of_nat (length pre) + 1) (pre ++ x :: post) = post.
Proof.
  replace (Z.of_nat (length pre) + 1) with (Z.of_nat (S (length pre))) by lia.
  rewrite slice_nonneg.
  replace (pre ++ x :: post) with ((pre ++ [x]) ++ post) by now rewrite <- app_assoc.
  rewrite skipn_app, skipn_all2 by (rewrite length_app; simpl; lia).
  rewrite length_app.
  replace (S (length pre) - (length pre + length [x]))%nat with 0%nat
    by (change (length [x]) with 1%nat; lia).
  reflexivity.
Qed.

(** [slice(-k)] keeps the last [k] elements when [k] is positive. *)
Lemma slice_last {A} (k : Z) (l : list A) :
  0 < k ->
  JS.slice (- k) l = skipn (length l - Z.to_nat k) l.
Proof.
  intros Hk. unfold JS.slice. destruct (Z.ltb_spec (- k) 0); [|lia].
  f_equal. lia.
Qed.

Lemma slice_zero {A} (l : list A) : JS.slice (- 0) l = l.
Proof.
  unfold JS.slice. simpl.
  replace (Z.min 0 (Z.of_nat (length l))) with 0 by lia. reflexivity.
Qed.

Lemma slice_suffix {A} (start : Z) (l : list A) :
  exists dropped, l = dropped ++ JS.slice start l.
Proof.
  unfold JS.slice. eexists. symmetry. apply firstn_skipn.
Qed.

Lemma slice_neg_nonempty {A} (k : Z) (l : list A) :
  l <> [] -> JS.slice (- Z.abs k) l <> [].
Proof.
  intros Hl. destruct (Z.eq_dec k 0) as [->|Hk].
  - change (- Z.abs 0) with (- 0). now rewrite slice_zero.
  - rewrite slice_last by lia. intros E.
    apply (f_equal (@length A)) in E. rewrite length_skipn in E.
    destruct l; [congruence|]. cbn [length] in E. lia.
Qed.

(** ** The sort *)

Lemma insert_by_time_perm (x : Entry) (l : list Entry) :
  Permutation (x :: l) (insert_by_time x l).
Proof.
  induction l as [|y l IH]; simpl; [apply Permutation_refl|].
  destruct (time_of x <=? time_of y); [apply Permutation_refl|].
  eapply perm_trans; [apply perm_swap|]. now apply perm_skip.
Qed.

Lemma sort_by_updated_perm (l : list Entry) : Permutation l (sort_by_updated l).
Proof.
  induction l as [|x l IH]; simpl; [constructor|].
  eapply perm_trans; [apply perm_skip, IH|]. apply insert_by_time_perm.
Qed.

Lemma insert_by_time_sorted (x : Entry) (l : list Entry) :
  StronglySorted le_time l -> StronglySorted le_time (insert_by_time x l).
Proof.
  induction 1 as [|y l Hl IH Hy]; simpl.
  - repeat constructor.
  - destruct (Z.leb_spec (time_of x) (time_of y)) as [Hxy|Hxy].
    + constructor; [now constructor|]. constructor; [exact Hxy|].
      eapply Forall_impl; [|exact Hy]. unfold le_time. intros; lia.
    + constructor; [exact IH|].
      apply (Permutation_Forall (insert_by_time_perm x l)).
      constructor; [unfold le_time; lia | exact Hy].
Qed.

Lemma sort_by_updated_sorted (l : list Entry) :
  StronglySorted le_time (sort_by_updated l).
Proof.
  induction l as [|x l IH]; simpl; [constructor|].
  now apply insert_by_time_sorted.
Qed.

(** Stability: entries with the same time keep their arrival order. *)
Lemma insert_by_time_stable (k : Z) (x : Entry) (l : list Entry) :
  filter (fun e => time_of e =? k) (insert_by_time x l)
  = filter (fun e => time_of e =? k) (x :: l).
Proof.
  induction l as [|y l IH]; [reflexivity|].
  cbn [insert_by_time].
  destruct (Z.leb_spec (time_of x) (time_of y)) as [Hxy|Hxy]; [reflexivity|].
  cbn [filter] in *. rewrite IH.
  destruct (Z.eqb_spec (time_of x) k), (Z.eqb_spec (time_of y) k); try reflexivity.
  lia.
Qed.

Lemma sort_by_updated_stable (k : Z) (l : list Entry) :
  filter (fun e => time_of e =? k) (sort_by_updated l)
  = filter (fun e => time_of e =? k) l.
Proof.
  induction l as [|x l IH]; [reflexivity|].
  cbn [sort_by_updated]. rewrite insert_by_time_stable. cbn [filter].
  now rewrite IH.
Qed.

(** In a sorted list every entry is at most as recent as the last one. *)
Lemma sorted_last_max (l : list Entry) (d e : Entry) :
  StronglySorted le_time l -> In e l -> time_of e <= time_of (last l d).
Proof.
  intros Hs. revert e.
  induction Hs as [|y l Hl IH Hy]; intros e Hin; [destruct Hin|].
  destruct l as [|z l'].
  - destruct Hin as [->|[]]. simpl. lia.
  - change (last (y :: z :: l') d) with (last (z :: l') d).
    destruct Hin as [->|Hin]; [|now apply IH].
    transitivity (time_of z).
    + now inversion Hy.
    + apply IH. now left.
Qed.

Lemma sorted_suffix (pre l : list Entry) :
  StronglySorted le_time (pre ++ l) -> StronglySorted le_time l.
Proof.
  induction pre as [|x pre IH]; simpl; [auto|].
  intros H. apply IH. now inversion H.
Qed.

(** ** The canonical id *)

Lemma hex_nonempty (s : string) : SHA1.hex s <> "".
Proof.
  unfold SHA1.hex. destruct (SHA1.digest _) as [[[[h0 h1] h2] h3] h4].
  cbn [SHA1.hex_word append]. discriminate.
Qed.

Lemma canonical_id_nonempty (e : RawEntry) : canonical_id e <> "".
Proof.
  unfold canonical_id. apply or_else_nonempty, or_else_nonempty, hex_nonempty.
Qed.

(** ** Normalisation, window and loop *)

Section EngineFacts.

Variable Date_parse : string -> option Z.
Variable fetch_text : string -> option string.
Variable input : Input.
Variable url : string.
Variable userData_company : option string.

Local Abbreviation normalize := (normalize Date_parse).
Local Abbreviation normalize_entry := (normalize_entry Date_parse).
Local Abbreviation toConsider := (toConsider Date_parse input).
Local Abbreviation process_entry := (process_entry fetch_text input url userData_company).
Local Abbreviation requestHandler :=
  (requestHandler Date_parse fetch_text input url userData_company).
Local Abbreviation accepted := (accepted input).
Local Abbreviation item_of := (item_of fetch_text input url userData_company).
Local Abbreviation parses := (parses Date_parse).
Local Abbreviation payload_of := (payload_of url).

Lemma normalize_entry_ok (e : RawEntry) :
  parses e -> exists n, normalize_entry e = Normal n /\ e_id n = canonical_id e.
Proof.
  unfold parses, normalize_entry. intros H.
  destruct (JS.truthy (r_updated e)); simpl.
  - destruct (Date_parse _); [|now destruct H]. simpl. eauto.
  - eauto.
Qed.

Lemma normalize_entry_id (e : RawEntry) (n : Entry) :
  normalize_entry e = Normal n ->
  e_id n = canonical_id e
  /\ e_updated n = (if JS.truthy (r_updated e)
                    then Date_parse (JS.or_else (r_updated e) "") else None).
Proof.
  unfold normalize_entry.
  destruct (JS.truthy (r_updated e)); simpl.
  - destruct (Date_parse _); simpl; [|discriminate].
    intros [= <-]. now split.
  - intros [= <-]. now split.
Qed.

Lemma normalize_ok (entries : list RawEntry) :
  Forall parses entries ->
  exists ns, normalize entries = Normal ns
             /\ map e_id ns = map canonical_id entries.
Proof.
  induction 1 as [|e es He Hes (ns & Hns & Hids)]; simpl; [now exists []|].
  destruct (normalize_entry_ok e He) as (n & -> & Hid). simpl.
  rewrite Hns. simpl. exists (n :: ns). simpl. now rewrite Hid, Hids.
Qed.

Lemma normalize_ids (entries : list RawEntry) (ns : list Entry) :
  normalize entries = Normal ns -> map e_id ns = map canonical_id entries.
Proof.
  revert ns. induction entries as [|e es IH]; simpl; intros ns.
  - now intros [= <-].
  - destruct (normalize_entry e) as [n|] eqn:En; simpl; [|discriminate].
    destruct (normalize es) as [ns'|]; simpl; [|discriminate].
    intros [= <-]. simpl. apply normalize_entry_id in En as [-> _].
    now rewrite (IH ns').
Qed.

(** One entry with a timestamp that is not a date makes the whole
    [entries.map] throw. *)
Lemma normalize_throws (entries : list RawEntry) (e : RawEntry) :
  In e entries -> JS.truthy (r_updated e) = true ->
  Date_parse (JS.or_else (r_updated e) "") = None ->
  exists err, normalize entries = Throw err.
Proof.
  intros Hin Ht Hd. induction entries as [|x es IH]; [destruct Hin|].
  simpl. destruct (normalize_entry x) as [n|err] eqn:Ex; simpl; [|eauto].
  destruct Hin as [->|Hin].
  - unfold normalize_entry in Ex. rewrite Ht, Hd in Ex. discriminate.
  - destruct (IH Hin) as (err & ->). simpl. eauto.
Qed.

Lemma normalize_nonempty_ids (entries : list RawEntry) (ns : list Entry) :
  normalize entries = Normal ns -> Forall (fun n => e_id n <> "") ns.
Proof.
  intros H. apply normalize_ids in H. apply Forall_forall. intros n Hn.
  apply (in_map e_id) in Hn. rewrite H in Hn.
  apply in_map_iff in Hn as (e & <- & _). apply canonical_id_nonempty.
Qed.

Lemma normalize_length (entries : list RawEntry) (ns : list Entry) :
  normalize entries = Normal ns -> length ns = length entries.
Proof.
  intros H. apply normalize_ids in H.
  now rewrite <- (length_map e_id ns), H, length_map.
Qed.

Lemma toConsider_inv (entries : list RawEntry) (w : list Entry) :
  toConsider entries = Normal w ->
  exists ns, normalize entries = Normal ns
             /\ w = cap input (sort_by_updated ns).
Proof.
  unfold toConsider.
  destruct (normalize entries) as [ns|]; simpl; [|discriminate].
  intros [= <-]. eauto.
Qed.

Lemma cap_suffix (l : list Entry) : exists dropped, l = dropped ++ cap input l.
Proof. apply slice_suffix. Qed.

Lemma toConsider_facts (entries : list RawEntry) (w : list Entry) :
  toConsider entries = Normal w ->
  StronglySorted le_time w
  /\ Forall (fun n => e_id n <> "") w
  /\ (entries <> [] -> w <> []).
Proof.
  intros H. apply toConsider_inv in H as (ns & Hns & ->).
  destruct (cap_suffix (sort_by_updated ns)) as (dropped & Hd).
  repeat split.
  - apply (sorted_suffix dropped). rewrite <- Hd. apply sort_by_updated_sorted.
  - assert (Hall : Forall (fun n => e_id n <> "") (sort_by_updated ns)).
    { apply (Permutation_Forall (sort_by_updated_perm ns)).
      now apply (normalize_nonempty_ids entries). }
    rewrite Hd in Hall. now apply Forall_app in Hall.
  - intros Hne. apply slice_neg_nonempty. intros E.
    apply (f_equal (@length Entry)) in E.
    rewrite <- (Permutation_length (sort_by_updated_perm ns)) in E.
    rewrite (normalize_length _ _ Hns) in E. destruct entries; [congruence|discriminate].
Qed.

(** The loop pushes one row per accepted entry, in order. *)
Lemma loop_pushed (items : list Entry) (st : Loop) :
  pushed (fold_left process_entry items st)
  = pushed st ++ map item_of (filter accepted items).
Proof.
  revert st. induction items as [|e items IH]; intros st; simpl.
  - now rewrite app_nil_r.
  - rewrite IH. unfold process_entry, accepted.
    destruct (passes_filter _ _); simpl; [|reflexivity].
    now rewrite <- app_assoc.
Qed.

Lemma loop_posted (items : list Entry) (st : Loop) :
  posted (fold_left process_entry items st)
  = posted st ++ (if JS.truthy (Some (webhookUrl input))
                  then map payload_of (filter accepted items) else []).
Proof.
  revert st. induction items as [|e items IH]; intros st; cbn [fold_left filter].
  - destruct (JS.truthy (Some (webhookUrl input))); now rewrite app_nil_r.
  - rewrite IH. unfold process_entry, accepted.
    destruct (passes_filter _ _); cbn [posted]; [|reflexivity].
    destruct (JS.truthy (Some (webhookUrl input))); cbn [map]; [|reflexivity].
    now rewrite <- app_assoc.
Qed.

(** The handler, once the window is known: the rows and bodies of the
    accepted new entries, and the store as it was found, because
    [setValue] refuses the object it is given. *)
Lemma requestHandler_window (entries : list RawEntry) (kv : option Stored)
      (w : list Entry) :
  entries <> [] -> toConsider entries = Normal w ->
  requestHandler entries kv
  = Normal (kv,
            map item_of (filter accepted (newItems (read_cursor kv) w)),
            if JS.truthy (Some (webhookUrl input))
            then map payload_of (filter accepted (newItems (read_cursor kv) w))
            else []).
Proof.
  intros Hne Hw. unfold requestHandler. destruct entries as [|e es]; [congruence|].
  rewrite Hw. cbn [bind]. rewrite loop_pushed, loop_posted. cbn [pushed posted app].
  unfold setValue. change (JS.truthy (Some "application/json")) with true.
  cbv iota. now destruct (JS.truthy _).
Qed.

End EngineFacts.

Example sample_normalize :
  normalize IsoDate.Date_parse
    [Sample.jan1; Sample.jan2; Sample.jan3; Sample.jan4; Sample.jan5;
     Sample.jan2_again; Sample.dec1969; Sample.undated]
  = Normal [Sample.n_jan1; Sample.n_jan2; Sample.n_jan3; Sample.n_jan4; Sample.n_jan5;
            Sample.n_jan2_again; Sample.n_dec1969; Sample.n_undated].
Proof. vm_compute. reflexivity. Qed.

(** ** The classifier on the documented examples *)

(** C8: on the three example inputs [detectFilingType] answers ["10-Q"],
    ["4"] and [null].  The second answer is the bare token ["4"], which the
    token loop finds before the [Form] pattern is tried; the example expects
    ["Form 4"]. *)
Theorem classifier_examples :
  detectFilingType (Some "Apple Inc files quarterly report 10-Q") None = Some "10-Q"
  /\ detectFilingType (Some "Form 4 filed") None = Some "4"
  /\ detectFilingType (Some "unrelated announcement") (Some "nothing material") = None.
Proof. repeat split; vm_compute; reflexivity. Qed.

(** The [Form] pattern is reached when no bare token stands alone. *)
Example classifier_form_fallback :
  detectFilingType (Some "Form 4A filed") None = Some "Form 4A"
  /\ detectFilingType (Some "Form144 notice") None = Some "Form144".
Proof. split; vm_compute; reflexivity. Qed.

(** ** The canonical id *)

(** C4, as the code has it: the id of a normalised entry is the source id
    when that is a non-empty string; otherwise the link when that is a
    non-empty string; otherwise the SHA-1 digest, in hexadecimal, of the
    title alone when it is non-empty, else of the summary alone when it is
    non-empty, else of the empty string.  Hence two entries without id and
    link that carry the same non-empty title get the same id, whatever
    their summaries. *)
Theorem canonical_id_priority (Date_parse : string -> option Z)
        (e : RawEntry) (n : Entry) :
  normalize_entry Date_parse e = Normal n ->
  (forall s, r_id e = Some s -> s <> "" -> e_id n = s)
  /\ (JS.truthy (r_id e) = false ->
      forall s, r_link e = Some s -> s <> "" -> e_id n = s)
  /\ (JS.truthy (r_id e) = false -> JS.truthy (r_link e) = false ->
      (forall t, r_title e = Some t -> t <> "" -> e_id n = SHA1.hex t)
      /\ (JS.truthy (r_title e) = false ->
          forall s, r_summary e = Some s -> s <> "" -> e_id n = SHA1.hex s)
      /\ (JS.truthy (r_title e) = false -> JS.truthy (r_summary e) = false ->
          e_id n = SHA1.hex "")
      /\ (forall e' n' t,
             normalize_entry Date_parse e' = Normal n' ->
             JS.truthy (r_id e') = false -> JS.truthy (r_link e') = false ->
             r_title e = Some t -> r_title e' = Some t -> t <> "" ->
             e_id n = e_id n')).
Proof.
  intros Hn. apply normalize_entry_id in Hn as [-> _]. unfold canonical_id.
  split; [|split].
  - intros s Hs Hne. now apply or_else_truthy.
  - intros Hid s Hs Hne. rewrite (or_else_falsy _ _ Hid). now apply or_else_truthy.
  - intros Hid Hlink. rewrite (or_else_falsy _ _ Hid), (or_else_falsy _ _ Hlink).
    repeat split.
    + intros t Ht Hne. now rewrite (or_else_truthy _ _ _ Ht Hne).
    + intros Ht s Hs Hne. rewrite (or_else_falsy _ _ Ht).
      now rewrite (or_else_truthy _ _ _ Hs Hne).
    + intros Ht Hs. now rewrite (or_else_falsy _ _ Ht), (or_else_falsy _ _ Hs).
    + intros e' n' t Hn' Hid' Hlink' Ht Ht' Hne.
      apply normalize_entry_id in Hn' as [-> _]. unfold canonical_id.
      rewrite (or_else_falsy _ _ Hid'), (or_else_falsy _ _ Hlink').
      now rewrite (or_else_truthy _ _ _ Ht Hne), (or_else_truthy _ _ _ Ht' Hne).
Qed.

Lemma canonical_id_priority_witness :
  e_id Sample.n_jan1 = "urn:a"
  /\ e_id {| e_id := SHA1.hex "Acme Corp update"; e_title := Some "Acme Corp update";
             e_link := None; e_updated := None;
             e_summary := Some "first text"; e_content := None |}
     = SHA1.hex "Acme Corp update".
Proof.
  assert (H1 : normalize_entry IsoDate.Date_parse Sample.jan1 = Normal Sample.n_jan1)
    by (vm_compute; reflexivity).
  assert (H2 : normalize_entry IsoDate.Date_parse
                 (Sample.anonymous "Acme Corp update" "first text")
               = Normal {| e_id := SHA1.hex "Acme Corp update";
                           e_title := Some "Acme Corp update";
                           e_link := None; e_updated := None;
                           e_summary := Some "first text"; e_content := None |})
    by (vm_compute; reflexivity).
  split.
  - apply (proj1 (canonical_id_priority _ _ _ H1) "urn:a");
      [reflexivity | discriminate].
  - apply (proj1 (proj2 (proj2 (canonical_id_priority _ _ _ H2)) eq_refl eq_refl)
             "Acme Corp update"); [reflexivity | discriminate].
Defined.

(** C4 as stated fails twice: two entries without id and link that differ
    only in their summaries get the same id, and two entries whose title
    followed by summary spell the same text get different ids. *)
Lemma canonical_id_ignores_summary :
  normalize IsoDate.Date_parse
    [Sample.anonymous "Acme Corp update" "first text";
     Sample.anonymous "Acme Corp update" "second text";
     Sample.anonymous "Acme Corp" " updatefirst text"]
  = Normal
      [ {| e_id := "aa1a187aa3ea269e665b50b081d01f312d109221";
           e_title := Some "Acme Corp update"; e_link := None; e_updated := None;
           e_summary := Some "first text"; e_content := None |};
        {| e_id := "aa1a187aa3ea269e665b50b081d01f312d109221";
           e_title := Some "Acme Corp update"; e_link := None; e_updated := None;
           e_summary := Some "second text"; e_content := None |};
        {| e_id := "8c29ce477dcedba1cf04177311e4a8de7793ab17";
           e_title := Some "Acme Corp"; e_link := None; e_updated := None;
           e_summary := Some " updatefirst text"; e_content := None |} ]
  /\ ("Acme Corp update" ++ "first text" = "Acme Corp" ++ " updatefirst text")%string.
Proof. split; vm_compute; reflexivity. Qed.

(** ** The type filter *)








(** ** The new-entry set *)

Lemma read_cursor_truthy (kv : option Stored) (c : string) :
  read_cursor kv = Some c -> c <> "".
Proof.
  destruct kv as [[s|l f]|]; simpl; unfold JS.or_null; [| |discriminate].
  - destruct (JS.truthy (Some s)) eqn:E; [|discriminate].
    intros [= <-]. apply truthy_inv in E as (s' & [= <-] & H). exact H.
  - destruct (JS.truthy l) eqn:E; [|discriminate].
    intros ->. apply truthy_inv in E as (s' & [= <-] & H). exact H.
Qed.

Lemma newItems_found (c : string) (pre post : list Entry) (e : Entry) :
  c <> "" -> e_id e = c -> (forall x, In x pre -> e_id x <> c) ->
  newItems (Some c) (pre ++ e :: post) = post.
Proof.
  intros Hc He Hpre. unfold newItems, find_cursor.
  rewrite (truthy_some c Hc), (or_else_truthy (Some c) "" c eq_refl Hc).
  rewrite findIndex_first.
  - destruct (Z.geb_spec (Z.of_nat (length pre)) 0); [|lia]. apply slice_after.
  - intros y Hy. apply String.eqb_neq. now apply Hpre.
  - now apply String.eqb_eq.
Qed.

Lemma newItems_absent (c : string) (w : list Entry) :
  ~ In c (map e_id w) -> newItems (Some c) w = w.
Proof.
  intros Hc. unfold newItems, find_cursor.
  destruct (JS.truthy (Some c)) eqn:Et; [|reflexivity].
  rewrite (or_else_truthy (Some c) "" c eq_refl)
    by (apply truthy_inv in Et as (s & [= <-] & H); exact H).
  rewrite findIndex_none; [reflexivity|].
  intros x Hx. apply String.eqb_neq. intros E. apply Hc. rewrite <- E.
  now apply in_map.
Qed.

Lemma newItems_null (w : list Entry) : newItems None w = w.
Proof. reflexivity. Qed.

(** The new entries are always a tail of the window. *)
Lemma newItems_suffix (lastSeenId : option string) (w : list Entry) :
  exists skipped, w = skipped ++ newItems lastSeenId w.
Proof.
  unfold newItems. destruct (_ >=? 0); [apply slice_suffix | now exists []].
Qed.

(** C2, as the code has it: when the stored id occurs in the window and
    [i] is the first position where it does, the new entries are exactly
    those at positions [i+1] to the end; when no id is stored, or the stored
    id does not occur in the window, the new entries are the whole window. *)
Theorem new_items_after_cursor (kv : option Stored) (window : list Entry) :
  (forall c i e,
      read_cursor kv = Some c ->
      nth_error window i = Some e -> e_id e = c ->
      (forall j x, (j < i)%nat -> nth_error window j = Some x -> e_id x <> c) ->
      newItems (read_cursor kv) window = skipn (S i) window)
  /\ (read_cursor kv = None -> newItems (read_cursor kv) window = window)
  /\ (forall c, read_cursor kv = Some c -> ~ In c (map e_id window) ->
                newItems (read_cursor kv) window = window).
Proof.
  split; [|split].
  - intros c i e Hkv Hnth He Hfirst. rewrite Hkv.
    destruct (nth_error_split _ _ Hnth) as (pre & post & -> & Hlen).
    rewrite newItems_found; auto.
    + replace (pre ++ e :: post) with ((pre ++ [e]) ++ post) by now rewrite <- app_assoc.
      rewrite skipn_app, skipn_all2 by (rewrite length_app; simpl; lia).
      rewrite length_app. change (length [e]) with 1%nat.
      replace (S i - (length pre + 1))%nat with 0%nat by lia. reflexivity.
    + now apply (read_cursor_truthy kv).
    + intros x Hx. apply In_nth_error in Hx as (j & Hj).
      apply (Hfirst j x).
      * rewrite <- Hlen. apply nth_error_Some. congruence.
      * rewrite nth_error_app1; [exact Hj|]. apply nth_error_Some. congruence.
  - intros ->. reflexivity.
  - intros c -> Hc. now apply newItems_absent.
Qed.

Lemma new_items_after_cursor_witness :
  newItems (Some "urn:b") [Sample.n_jan1; Sample.n_jan2; Sample.n_jan3]
  = [Sample.n_jan3]
  /\ newItems None [Sample.n_jan1; Sample.n_jan2] = [Sample.n_jan1; Sample.n_jan2]
  /\ newItems (Some "urn:z") [Sample.n_jan1; Sample.n_jan2]
     = [Sample.n_jan1; Sample.n_jan2].
Proof.
  split; [|split].
  - apply (proj1 (new_items_after_cursor
                    (Some (Structured (Some "urn:b") Sample.apple))
                    [Sample.n_jan1; Sample.n_jan2; Sample.n_jan3])
             "urn:b" 1%nat Sample.n_jan2); try reflexivity.
    intros j x Hj. assert (j = 0%nat) as -> by lia.
    intros [= <-]. discriminate.
  - apply (proj1 (proj2 (new_items_after_cursor None
                    [Sample.n_jan1; Sample.n_jan2]))). reflexivity.
  - apply (proj2 (proj2 (new_items_after_cursor (Some (Bare "urn:z"))
                    [Sample.n_jan1; Sample.n_jan2])) "urn:z"); [reflexivity|].
    simpl. intros [H|[H|[]]]; discriminate.
Defined.

(** C2 as stated fails when an id occurs twice in the window: the stored
    id ["urn:a"] occurs at position 1, yet the new entries are not those at
    positions 2 to the end, because the search stops at position 0. *)
Lemma new_items_second_occurrence :
  toConsider IsoDate.Date_parse Sample.accept_all
    [Sample.jan1; Sample.jan2_again; Sample.jan3]
  = Normal [Sample.n_jan1; Sample.n_jan2_again; Sample.n_jan3]
  /\ read_cursor (Some (Structured (Some "urn:a") Sample.apple)) = Some "urn:a"
  /\ nth_error [Sample.n_jan1; Sample.n_jan2_again; Sample.n_jan3] 1
     = Some Sample.n_jan2_again
  /\ e_id Sample.n_jan2_again = "urn:a"
  /\ newItems (Some "urn:a") [Sample.n_jan1; Sample.n_jan2_again; Sample.n_jan3]
     = [Sample.n_jan2_again; Sample.n_jan3]
  /\ newItems (Some "urn:a") [Sample.n_jan1; Sample.n_jan2_again; Sample.n_jan3]
     <> skipn 2 [Sample.n_jan1; Sample.n_jan2_again; Sample.n_jan3].
Proof.
  repeat split; try (vm_compute; reflexivity).
  vm_compute. discriminate.
Qed.

(** ** The window *)

Lemma toConsider_of_normalized (Date_parse : string -> option Z) (input : Input)
      (entries : list RawEntry) (normalized : list Entry) :
  normalize Date_parse entries = Normal normalized ->
  toConsider Date_parse input entries
  = Normal (cap input (sort_by_updated normalized)).
Proof. intros H. unfold toConsider. now rewrite H. Qed.

Lemma sorted_app_le (a b : list Entry) :
  StronglySorted le_time (a ++ b) ->
  forall x y, In x a -> In y b -> time_of x <= time_of y.
Proof.
  induction a as [|z a IH]; intros Hs x y Hx Hy; [destruct Hx|].
  cbn [app] in Hs. apply StronglySorted_inv in Hs as [Hs Hz].
  destruct Hx as [->|Hx]; [|now apply IH].
  rewrite Forall_forall in Hz. apply Hz. apply in_or_app. now right.
Qed.

(** C6, as the code has it: for every [maxEntriesPerFeed] other than zero
    the window is made of the [|maxEntriesPerFeed|] most recent entries of
    the sorted batch: it never holds more than [|maxEntriesPerFeed|]
    entries, the excess that is dropped is the oldest, and without a stored
    cursor the rows pushed are those of the accepted entries of the window
    and of no other entry. *)
Theorem window_cap (Date_parse : string -> option Z)
        (fetch_text : string -> option string) (input : Input) (url : string)
        (userData_company : option string)
        (entries : list RawEntry) (normalized : list Entry) :
  maxEntriesPerFeed input <> 0 ->
  normalize Date_parse entries = Normal normalized ->
  let sorted := sort_by_updated normalized in
  let k := Z.to_nat (Z.abs (maxEntriesPerFeed input)) in
  let window := skipn (length sorted - k) sorted in
  toConsider Date_parse input entries = Normal window
  /\ sorted = firstn (length sorted - k) sorted ++ window
  /\ length window = Nat.min k (length entries)
  /\ Z.of_nat (length window) <= Z.abs (maxEntriesPerFeed input)
  /\ (forall dropped kept,
         In dropped (firstn (length sorted - k) sorted) -> In kept window ->
         time_of dropped <= time_of kept)
  /\ (entries <> [] ->
      exists kv',
        requestHandler Date_parse fetch_text input url userData_company entries None
        = Normal (kv',
                  map (item_of fetch_text input url userData_company)
                    (filter (accepted input) window),
                  if JS.truthy (Some (webhookUrl input))
                  then map (payload_of url) (filter (accepted input) window)
                  else [])).
Proof.
  intros Hm Hn sorted k window.
  assert (Hlen : length sorted = length entries).
  { unfold sorted. rewrite <- (Permutation_length (sort_by_updated_perm normalized)).
    now apply (normalize_length Date_parse). }
  assert (Hw : toConsider Date_parse input entries = Normal window).
  { rewrite (toConsider_of_normalized _ _ _ _ Hn). unfold cap.
    rewrite slice_last by lia. reflexivity. }
  assert (Hk : (0 < k)%nat) by (unfold k; lia).
  split; [exact Hw|]. split; [symmetry; apply firstn_skipn|].
  assert (Hlw : length window = Nat.min k (length entries)).
  { unfold window. rewrite length_skipn. lia. }
  split; [exact Hlw|]. split; [unfold k in Hlw; lia|]. split.
  - apply sorted_app_le. unfold window. rewrite firstn_skipn.
    apply sort_by_updated_sorted.
  - intros Hne. exists None.
    rewrite (requestHandler_window _ _ _ _ _ _ _ window Hne Hw).
    change (read_cursor None) with (@None string). now rewrite newItems_null.
Qed.

(** The example of the specification: a cap of 2, five entries, no cursor. *)
Lemma window_cap_witness :
  toConsider IsoDate.Date_parse Sample.cap_two Sample.five
  = Normal [Sample.n_jan4; Sample.n_jan5]
  /\ exists kv',
       requestHandler IsoDate.Date_parse Sample.no_fetch Sample.cap_two
         Sample.apple Sample.cik Sample.five None
       = Normal (kv',
                 map (item_of Sample.no_fetch Sample.cap_two Sample.apple Sample.cik)
                   [Sample.n_jan4; Sample.n_jan5],
                 []).
Proof.
  assert (Hn : normalize IsoDate.Date_parse Sample.five = Normal Sample.n_five)
    by (vm_compute; reflexivity).
  destruct (window_cap IsoDate.Date_parse Sample.no_fetch Sample.cap_two
              Sample.apple Sample.cik Sample.five Sample.n_five
              ltac:(vm_compute; discriminate) Hn)
    as (Hw & _ & _ & _ & _ & Hr).
  split.
  - rewrite Hw. vm_compute. reflexivity.
  - destruct (Hr ltac:(discriminate)) as (kv' & Hr'). exists kv'.
    rewrite Hr'. vm_compute. reflexivity.
Defined.

(** C6 as stated fails for a negative [maxEntriesPerFeed]: [Math.abs]
    turns [-2] into a cap of two, so the window holds two entries, which is
    more than [maxEntriesPerFeed]. *)
Lemma window_cap_negative :
  toConsider IsoDate.Date_parse Sample.cap_minus_two
    Sample.five
  = Normal [Sample.n_jan4; Sample.n_jan5]
  /\ ~ (Z.of_nat (length [Sample.n_jan4; Sample.n_jan5])
        <= maxEntriesPerFeed Sample.cap_minus_two).
Proof.
  split; [vm_compute; reflexivity|]. vm_compute. intros H. now apply H.
Qed.

(** With [maxEntriesPerFeed = 0] the call is [slice(-0)], the whole batch. *)
Example window_cap_zero :
  toConsider IsoDate.Date_parse Sample.cap_zero
    Sample.five
  = Normal [Sample.n_jan1; Sample.n_jan2; Sample.n_jan3; Sample.n_jan4; Sample.n_jan5].
Proof. vm_compute. reflexivity. Qed.

(** ** The cursor write *)

Lemma toConsider_nil (Date_parse : string -> option Z) (input : Input) :
  toConsider Date_parse input [] = Normal [].
Proof.
  unfold toConsider, cap, JS.slice. cbn [normalize bind]. now rewrite skipn_nil.
Qed.

Lemma requestHandler_latest (Date_parse : string -> option Z)
      (fetch_text : string -> option string) (input : Input) (url : string)
      (userData_company : option string)
      (entries : list RawEntry) (kv : option Stored) (window : list Entry) :
  toConsider Date_parse input entries = Normal window ->
  window <> [] ->
  exists older latest,
    window = older ++ [latest]
    /\ e_id latest <> ""
    /\ (forall e, In e window -> time_of e <= time_of latest)
    /\ requestHandler Date_parse fetch_text input url userData_company entries kv
       = Normal (kv,
                 map (item_of fetch_text input url userData_company)
                   (filter (accepted input) (newItems (read_cursor kv) window)),
                 if JS.truthy (Some (webhookUrl input))
                 then map (payload_of url)
                        (filter (accepted input) (newItems (read_cursor kv) window))
                 else []).
Proof.
  intros Hw Hne.
  assert (Hentries : entries <> []).
  { intros ->. rewrite toConsider_nil in Hw. injection Hw as <-. congruence. }
  destruct (exists_last Hne) as (older & latest & E).
  destruct (toConsider_facts _ _ _ _ Hw) as (Hs & Hids & _).
  exists older, latest. split; [exact E|]. split; [|split].
  - rewrite E in Hids. apply Forall_app in Hids as [_ H]. now inversion H.
  - intros e He. replace latest with (last window latest) by now rewrite E, last_last.
    now apply sorted_last_max.
  - apply (requestHandler_window _ _ _ _ _ _ _ window Hentries Hw).
Qed.

(** The store never changes hands: whatever a poll does, the store it
    leaves is the store it found. *)
Lemma requestHandler_keeps_store (Date_parse : string -> option Z)
      (fetch_text : string -> option string) (input : Input) (url : string)
      (userData_company : option string)
      (entries : list RawEntry) (kv kv' : option Stored)
      (rows : list Item) (bodies : list Payload) :
  requestHandler Date_parse fetch_text input url userData_company entries kv
  = Normal (kv', rows, bodies) ->
  kv' = kv.
Proof.
  intros Hr. destruct entries as [|e0 es] eqn:Ee; [now injection Hr as <- _ _|].
  rewrite <- Ee in *.
  assert (Hne : entries <> []) by (rewrite Ee; discriminate).
  destruct (toConsider Date_parse input entries) as [w|err] eqn:Hw.
  - rewrite (requestHandler_window _ _ _ _ _ _ _ w Hne Hw) in Hr.
    now injection Hr as <- _ _.
  - unfold requestHandler in Hr. rewrite Ee in *. rewrite Hw in Hr. discriminate.
Qed.

(** C7, as the code behaves: whenever the window of a poll is not empty the
    handler takes the id of its last entry, the entry of greatest time, and
    hands it to [setValue] together with the option [contentType]; the
    store refuses the object, the exception is caught, and the store is
    left as it was found.  The rows pushed and the bodies posted are those
    of the new entries the filter accepted. *)
Theorem cursor_write_is_refused (Date_parse : string -> option Z)
        (fetch_text : string -> option string) (input : Input) (url : string)
        (userData_company : option string)
        (entries : list RawEntry) (kv : option Stored) (window : list Entry) :
  toConsider Date_parse input entries = Normal window ->
  window <> [] ->
  exists older latest err,
    window = older ++ [latest]
    /\ (forall e, In e window -> time_of e <= time_of latest)
    /\ setValue kv (Structured (Some (e_id latest)) url) (Some "application/json")
       = Throw err
    /\ requestHandler Date_parse fetch_text input url userData_company entries kv
       = Normal (kv,
                 map (item_of fetch_text input url userData_company)
                   (filter (accepted input) (newItems (read_cursor kv) window)),
                 if JS.truthy (Some (webhookUrl input))
                 then map (payload_of url)
                        (filter (accepted input) (newItems (read_cursor kv) window))
                 else []).
Proof.
  intros Hw Hne.
  destruct (requestHandler_latest Date_parse fetch_text input url userData_company
              entries kv window Hw Hne) as (older & latest & E & _ & Hmax & Hr).
  exists older, latest. eexists. split; [exact E|]. split; [exact Hmax|].
  split; [reflexivity | exact Hr].
Qed.

(** The example of the specification: the filter keeps ["10-K"] only, the
    window holds one quarterly report; nothing is emitted, and the store,
    which should now hold ["urn:b"], is still empty. *)
Lemma cursor_write_is_refused_witness :
  requestHandler IsoDate.Date_parse Sample.no_fetch Sample.only_10k
    Sample.apple Sample.cik [Sample.jan2] None
  = Normal (None, [], []).
Proof.
  assert (Hw : toConsider IsoDate.Date_parse Sample.only_10k [Sample.jan2]
               = Normal [Sample.n_jan2]) by (vm_compute; reflexivity).
  destruct (cursor_write_is_refused IsoDate.Date_parse Sample.no_fetch
              Sample.only_10k Sample.apple Sample.cik [Sample.jan2] None
              [Sample.n_jan2] Hw ltac:(discriminate))
    as (older & latest & err & _ & _ & _ & Hr).
  rewrite Hr. vm_compute. reflexivity.
Defined.

(** ** Normalisation and ordering of a batch *)

Lemma sorted_around (pre post : list Entry) (a : Entry) :
  StronglySorted le_time (pre ++ a :: post) ->
  Forall (fun b => le_time b a) pre /\ Forall (le_time a) post.
Proof.
  induction pre as [|x pre IH]; simpl; intros H.
  - apply StronglySorted_inv in H as [_ H]. now split.
  - apply StronglySorted_inv in H as [Hs Hx].
    destruct (IH Hs) as [Hpre Hpost]. split; [|exact Hpost].
    constructor; [|exact Hpre].
    apply Forall_app in Hx as [_ Hx]. now inversion Hx.
Qed.

Lemma normalize_pointwise (Date_parse : string -> option Z)
      (entries : list RawEntry) (ns : list Entry) :
  normalize Date_parse entries = Normal ns ->
  Forall2 (fun r n => normalize_entry Date_parse r = Normal n) entries ns.
Proof.
  revert ns. induction entries as [|e es IH]; simpl; intros ns.
  - intros [= <-]. constructor.
  - destruct (normalize_entry Date_parse e) as [n|] eqn:En; simpl; [|discriminate].
    destruct (normalize Date_parse es) as [ns'|]; simpl; [|discriminate].
    intros [= <-]. constructor; auto.
Qed.

(** C5, as the code has it: when every timestamp that is present reads as
    a date, normalisation yields one entry per raw entry and the sort
    orders them by time, an entry without timestamp counting as time zero:
    it comes after every entry of negative time and before every entry of
    positive time, and entries of equal time keep their arrival order. *)
Theorem batch_is_ordered_by_time (Date_parse : string -> option Z)
        (entries : list RawEntry) :
  Forall (parses Date_parse) entries ->
  exists normalized,
    normalize Date_parse entries = Normal normalized
    /\ Forall2 (fun r n =>
                  e_id n = canonical_id r
                  /\ e_updated n = (if JS.truthy (r_updated r)
                                    then Date_parse (JS.or_else (r_updated r) "")
                                    else None))
               entries normalized
    /\ Permutation normalized (sort_by_updated normalized)
    /\ StronglySorted le_time (sort_by_updated normalized)
    /\ (forall k, filter (fun e => time_of e =? k) (sort_by_updated normalized)
                  = filter (fun e => time_of e =? k) normalized)
    /\ (forall pre a post,
           sort_by_updated normalized = pre ++ a :: post ->
           e_updated a = None ->
           Forall (fun b => time_of b <= 0) pre
           /\ Forall (fun b => 0 <= time_of b) post).
Proof.
  intros Hall. destruct (normalize_ok Date_parse entries Hall) as (ns & Hns & _).
  exists ns. split; [exact Hns|]. split; [|split; [|split; [|split]]].
  - eapply Forall2_impl; [|apply normalize_pointwise, Hns].
    intros r n H. now apply normalize_entry_id in H.
  - apply sort_by_updated_perm.
  - apply sort_by_updated_sorted.
  - intros k. apply sort_by_updated_stable.
  - intros pre a post E Ha.
    pose proof (sort_by_updated_sorted ns) as Hs. rewrite E in Hs.
    apply sorted_around in Hs as [Hpre Hpost].
    unfold le_time in *. unfold time_of at 2 in Hpre. unfold time_of at 1 in Hpost.
    rewrite Ha in *. now split.
Qed.

Lemma batch_is_ordered_by_time_witness :
  exists normalized,
    normalize IsoDate.Date_parse [Sample.jan2; Sample.undated; Sample.dec1969]
    = Normal normalized
    /\ StronglySorted le_time (sort_by_updated normalized).
Proof.
  destruct (batch_is_ordered_by_time IsoDate.Date_parse
              [Sample.jan2; Sample.undated; Sample.dec1969])
    as (ns & Hns & _ & _ & Hs & _).
  - repeat (apply Forall_cons; [|try apply Forall_nil]);
      unfold parses; vm_compute; intros H1 H2;
      first [discriminate H1 | discriminate H2].
  - exists ns. now split.
Defined.

(** C5 as stated fails for a timestamp before 1970: the entry without
    timestamp counts as time zero and therefore sorts after it. *)
Lemma undated_sorts_after_older_entry :
  toConsider IsoDate.Date_parse Sample.accept_all [Sample.undated; Sample.dec1969]
  = Normal [Sample.n_dec1969; Sample.n_undated]
  /\ r_updated Sample.undated = None
  /\ r_updated Sample.dec1969 = Some "1969-12-31T23:59:59Z"
  /\ IsoDate.Date_parse "1969-12-31T23:59:59Z" = Some (-1000).
Proof. repeat split; vm_compute; reflexivity. Qed.

(** A timestamp that is not a date stops the poll: [toISOString] throws
    inside [entries.map], before anything is pushed or written. *)
Example garbled_timestamp_throws :
  requestHandler IsoDate.Date_parse Sample.no_fetch Sample.accept_all
    Sample.apple Sample.cik [Sample.jan1; Sample.garbled] None
  = Throw "RangeError: Invalid time value".
Proof. vm_compute. reflexivity. Qed.

(** ** Polling the same batch again *)

Lemma requestHandler_throw (Date_parse : string -> option Z)
      (fetch_text : string -> option string) (input : Input) (url : string)
      (userData_company : option string)
      (entries : list RawEntry) (kv : option Stored) (err : string) :
  entries <> [] -> toConsider Date_parse input entries = Throw err ->
  requestHandler Date_parse fetch_text input url userData_company entries kv
  = Throw err.
Proof.
  intros Hne H. unfold requestHandler. destruct entries; [congruence|].
  now rewrite H.
Qed.

Lemma newItems_nil (lastSeenId : option string) : newItems lastSeenId [] = [].
Proof.
  unfold newItems, find_cursor. now destruct (JS.truthy lastSeenId).
Qed.

Lemma run_keeps_store (Date_parse : string -> option Z)
      (fetch_text : string -> option string) (input : Input) (url : string)
      (userData_company : option string) (polls : list (list RawEntry)) :
  forall kv,
    fst (fst (run Date_parse fetch_text input url userData_company polls kv)) = kv.
Proof.
  induction polls as [|entries rest IH]; intros kv; cbn [run]; [reflexivity|].
  destruct (requestHandler Date_parse fetch_text input url userData_company entries kv)
    as [[[kv' rows] bodies]|err] eqn:Hr; [|apply IH].
  apply requestHandler_keeps_store in Hr. subst kv'.
  specialize (IH kv).
  destruct (run Date_parse fetch_text input url userData_company rest kv)
    as [[kv'' rows'] bodies'].
  exact IH.
Qed.

(** C9, as the code behaves: the store refuses the cursor, so the second
    poll of an unchanged entry set starts from the store the first one
    found and does what the first one did: it pushes the same rows and
    posts the same bodies again, namely those of the accepted entries that
    lie after the cursor found at the start. *)
Theorem second_poll_repeats_first (Date_parse : string -> option Z)
        (fetch_text : string -> option string) (input : Input) (url : string)
        (userData_company : option string)
        (entries : list RawEntry) (kv : option Stored) :
  exists rows bodies,
    run Date_parse fetch_text input url userData_company [entries] kv
    = (kv, rows, bodies)
    /\ run Date_parse fetch_text input url userData_company [entries; entries] kv
       = (kv, rows ++ rows, bodies ++ bodies)
    /\ (forall window,
           toConsider Date_parse input entries = Normal window ->
           rows = map (item_of fetch_text input url userData_company)
                    (filter (accepted input) (newItems (read_cursor kv) window))).
Proof.
  cbn [run].
  destruct (requestHandler Date_parse fetch_text input url userData_company entries kv)
    as [[[kv' rows] bodies]|err] eqn:Hr.
  - pose proof (requestHandler_keeps_store _ _ _ _ _ _ _ _ _ _ Hr) as ->.
    rewrite Hr. exists rows, bodies. rewrite !app_nil_r.
    split; [reflexivity|]. split; [reflexivity|].
    intros window Hw. destruct entries as [|e0 es] eqn:Ee.
    + rewrite toConsider_nil in Hw. injection Hw as <-.
      injection Hr; intros; subst. now rewrite newItems_nil.
    + rewrite <- Ee in *.
      rewrite (requestHandler_window _ _ _ _ _ _ _ window) in Hr;
        [|rewrite Ee; discriminate | exact Hw].
      injection Hr; intros; subst. reflexivity.
  - exists [], []. split; [reflexivity|]. split; [reflexivity|].
    intros window Hw. destruct entries as [|e0 es]; [discriminate Hr|].
    unfold requestHandler in Hr. rewrite Hw in Hr. discriminate Hr.
Qed.

(** The example of the specification: the same two filings polled twice,
    starting without a cursor.  Both are pushed by the first poll and both
    are pushed again by the second. *)
Example second_poll_pushes_again :
  run IsoDate.Date_parse Sample.no_fetch Sample.accept_all Sample.apple Sample.cik
    [[Sample.jan1; Sample.jan2]; [Sample.jan1; Sample.jan2]] None
  = (None,
     map (item_of Sample.no_fetch Sample.accept_all Sample.apple Sample.cik)
       [Sample.n_jan1; Sample.n_jan2; Sample.n_jan1; Sample.n_jan2],
     []).
Proof. vm_compute. reflexivity. Qed.

(** ** Direction of the cursor *)

(** C3: the stored cursor never moves back.  Later polls start from the
    store the earlier ones left and leave the id read from it as it was, so
    in any chronology the position of the cursor after them is not before
    its position before them. *)
Theorem cursor_never_reverts (Date_parse : string -> option Z)
        (fetch_text : string -> option string) (input : Input) (url : string)
        (userData_company : option string)
        (earlier later : list (list RawEntry)) (kv : option Stored)
        (chronology : list Entry) :
  let before :=
    fst (fst (run Date_parse fetch_text input url userData_company earlier kv)) in
  let after :=
    fst (fst (run Date_parse fetch_text input url userData_company later before)) in
  read_cursor after = read_cursor before
  /\ find_cursor (read_cursor before) chronology
     <= find_cursor (read_cursor after) chronology.
Proof.
  intros before after. unfold after. rewrite run_keeps_store. split; [reflexivity | lia].
Qed.

(** A feed that first lists two filings and then only the older one: the
    cursor read at the end is the one read at the start. *)
Example cursor_stays_put :
  fst (fst (run IsoDate.Date_parse Sample.no_fetch Sample.accept_all
              Sample.apple Sample.cik
              [[Sample.jan1; Sample.jan2]; [Sample.jan1]]
              (Some (Bare "urn:b"))))
  = Some (Bare "urn:b").
Proof. vm_compute. reflexivity. Qed.

(** ** No row is pushed twice *)

Lemma distinct_ids_filter (keep : Entry -> bool) (w : list Entry) :
  NoDup (map e_id w) -> NoDup (map e_id (filter keep w)).
Proof.
  induction w as [|x w IH]; cbn [map filter]; intros Hw; [constructor|].
  apply NoDup_cons_iff in Hw as [Hx Hw].
  destruct (keep x); cbn [map]; [|now apply IH].
  constructor; [|now apply IH].
  intros Hin. apply Hx. apply in_map_iff in Hin as (y & Hy & Hin).
  apply filter_In in Hin as [Hin _]. rewrite <- Hy. now apply in_map.
Qed.

Lemma ids_apart (l1 l2 : list string) (x : string) :
  NoDup (l1 ++ l2) -> In x l1 -> In x l2 -> False.
Proof.
  induction l1 as [|a l1 IH]; simpl; intros Hnd H1 H2; [exact H1|].
  apply NoDup_cons_iff in Hnd as [Hnot Hnd].
  destruct H1 as [->|H1]; [|now apply IH].
  apply Hnot, in_or_app. now right.
Qed.

Lemma filingId_item_of (fetch_text : string -> option string) (input : Input)
      (url : string) (userData_company : option string) (l : list Entry) :
  map filingId (map (item_of fetch_text input url userData_company) l) = map e_id l.
Proof. rewrite map_map. reflexivity. Qed.

(** C1, as the code has it: within one poll whose window shows no id
    twice, no pair of feed address and filing id is pushed to the dataset
    twice, and no entry up to and including the one the stored cursor names
    is pushed at all. *)
Theorem poll_pushes_each_id_once (Date_parse : string -> option Z)
        (fetch_text : string -> option string) (input : Input) (url : string)
        (userData_company : option string)
        (entries : list RawEntry) (kv kv' : option Stored)
        (rows : list Item) (bodies : list Payload) (window : list Entry) :
  toConsider Date_parse input entries = Normal window ->
  NoDup (map e_id window) ->
  requestHandler Date_parse fetch_text input url userData_company entries kv
  = Normal (kv', rows, bodies) ->
  NoDup (map (fun row => (feedUrl row, filingId row)) rows)
  /\ (forall c before same after,
         read_cursor kv = Some c ->
         window = before ++ same :: after -> e_id same = c ->
         forall row, In row rows -> ~ In (filingId row) (map e_id (before ++ [same]))).
Proof.
  intros Hw Hnd Hr.
  assert (Hrows : rows = map (item_of fetch_text input url userData_company)
                           (filter (accepted input) (newItems (read_cursor kv) window))).
  { destruct entries as [|e0 es] eqn:Ee.
    - rewrite toConsider_nil in Hw. injection Hw as <-.
      injection Hr; intros; subst. now rewrite newItems_nil.
    - rewrite <- Ee in *.
      rewrite (requestHandler_window _ _ _ _ _ _ _ window) in Hr;
        [|rewrite Ee; discriminate | exact Hw].
      injection Hr; intros; subst. reflexivity. }
  clear Hr.
  subst rows. split.
  - apply (NoDup_map_inv snd). rewrite map_map. cbn [snd].
    rewrite filingId_item_of. apply distinct_ids_filter.
    destruct (newItems_suffix (read_cursor kv) window) as (skipped & E).
    rewrite E, map_app in Hnd. now apply NoDup_app_remove_l in Hnd.
  - intros c before same after Hc E Hsame row Hrow Hin.
    rewrite Hc, E in Hrow.
    assert (Hsplit : NoDup (map e_id (before ++ [same]) ++ map e_id after)).
    { rewrite <- map_app, <- app_assoc. cbn [app]. now rewrite <- E. }
    rewrite newItems_found in Hrow; auto.
    + apply (ids_apart _ _ (filingId row) Hsplit Hin).
      apply in_map_iff in Hrow as (x & <- & Hx). apply filter_In in Hx as [Hx _].
      cbn [item_of make_item filingId]. now apply in_map.
    + now apply (read_cursor_truthy kv).
    + intros x Hx Ex. rewrite <- Hsame in Ex.
      apply (ids_apart _ _ (e_id x) Hsplit).
      * rewrite map_app. apply in_or_app. right. rewrite Ex. now left.
      * exfalso. rewrite map_app in Hsplit. rewrite <- app_assoc in Hsplit.
        apply (ids_apart _ _ (e_id x) Hsplit); [now apply in_map|].
        apply in_or_app. left. rewrite Ex. now left.
Qed.

Lemma poll_pushes_each_id_once_witness :
  NoDup (map (fun row => (feedUrl row, filingId row))
           (map (item_of Sample.no_fetch Sample.accept_all Sample.apple Sample.cik)
              [Sample.n_jan2; Sample.n_jan3])).
Proof.
  assert (Hw : toConsider IsoDate.Date_parse Sample.accept_all
                 [Sample.jan3; Sample.jan2; Sample.jan1]
               = Normal [Sample.n_jan1; Sample.n_jan2; Sample.n_jan3])
    by (vm_compute; reflexivity).
  assert (Hr : requestHandler IsoDate.Date_parse Sample.no_fetch Sample.accept_all
                 Sample.apple Sample.cik [Sample.jan3; Sample.jan2; Sample.jan1]
                 (Some (Bare "urn:a"))
               = Normal (Some (Bare "urn:a"),
                         map (item_of Sample.no_fetch Sample.accept_all
                                Sample.apple Sample.cik)
                           [Sample.n_jan2; Sample.n_jan3], []))
    by (vm_compute; reflexivity).
  apply (poll_pushes_each_id_once IsoDate.Date_parse Sample.no_fetch
           Sample.accept_all Sample.apple Sample.cik
           [Sample.jan3; Sample.jan2; Sample.jan1] (Some (Bare "urn:a"))
           (Some (Bare "urn:a")) _ [] _ Hw); [|exact Hr].
  simpl. repeat constructor; simpl; intuition discriminate.
Defined.

(** C1 as stated fails.  Within one poll: two entries of the window carry
    the id ["urn:a"] and both are pushed.  Across polls: the feed lists two
    filings and then only the older one; the second poll does not find a
    cursor in its window, takes the whole window as new and pushes
    ["urn:a"] a second time. *)
Lemma alert_pushed_twice :
  map (fun row => (feedUrl row, filingId row))
    (snd (fst (run IsoDate.Date_parse Sample.no_fetch Sample.accept_all
                 Sample.apple Sample.cik
                 [[Sample.jan1; Sample.jan2_again]] None)))
  = [(Sample.apple, "urn:a"); (Sample.apple, "urn:a")]
  /\ map (fun row => (feedUrl row, filingId row))
       (snd (fst (run IsoDate.Date_parse Sample.no_fetch Sample.accept_all
                    Sample.apple Sample.cik
                    [[Sample.jan1; Sample.jan2]; [Sample.jan1]] None)))
     = [(Sample.apple, "urn:a"); (Sample.apple, "urn:b"); (Sample.apple, "urn:a")]
  /\ ~ NoDup (map (fun row => (feedUrl row, filingId row))
               (snd (fst (run IsoDate.Date_parse Sample.no_fetch Sample.accept_all
                            Sample.apple Sample.cik
                            [[Sample.jan1; Sample.jan2_again]] None)))).
Proof.
  assert (E : map (fun row => (feedUrl row, filingId row))
                (snd (fst (run IsoDate.Date_parse Sample.no_fetch Sample.accept_all
                             Sample.apple Sample.cik
                             [[Sample.jan1; Sample.jan2_again]] None)))
              = [(Sample.apple, "urn:a"); (Sample.apple, "urn:a")])
    by (vm_compute; reflexivity).
  split; [exact E|]. split; [vm_compute; reflexivity|].
  rewrite E. intros H. apply NoDup_cons_iff in H as [H _]. apply H. now left.
Qed.

(** ** What the classifier can answer *)

Lemma first_token_in (ts : list string) (candidate label : string) :
  first_token ts candidate = Some label -> In label (map normalize_token ts).
Proof.
  induction ts as [|t ts IH]; simpl; [discriminate|].
  destruct (Regex.test_word t candidate).
  - intros [= <-]. now left.
  - intros H. right. now apply IH.
Qed.

Lemma span_split (p : ascii -> bool) (s a b : string) :
  Regex.span p s = (a, b) ->
  s = (a ++ b)%string /\ Forall (fun c => p c = true) (chars a).
Proof.
  revert a b. induction s as [|c s IH]; simpl; intros a b.
  - intros [= <- <-]. split; [reflexivity | constructor].
  - destruct (p c) eqn:Ec.
    + destruct (Regex.span p s) as [a' b'] eqn:Es. intros [= <- <-].
      destruct (IH a' b' eq_refl) as [-> Ha]. split; [reflexivity|].
      now constructor.
    + intros [= <- <-]. split; [reflexivity | constructor].
Qed.

Lemma match_lit_form (s rest : string) (last : option ascii) :
  Regex.match_lit None "Form" s = Some (last, rest) ->
  JS.toLowerCase (substring 0 4 s) = "form"
  /\ s = (substring 0 4 s ++ rest)%string.
Proof.
  destruct s as [|c1 [|c2 [|c3 [|c4 s]]]]; cbn [Regex.match_lit];
    try discriminate;
    repeat (match goal with
            | |- context [if ?b then _ else _] => destruct b eqn:?; try discriminate
            end).
  intros [= _ <-].
  repeat match goal with
         | H : Ascii.eqb _ _ = true |- _ => apply Ascii.eqb_eq in H
         end.
  assert (E0 : substring 0 0 s = "") by (destruct s; reflexivity).
  cbn [substring JS.toLowerCase append]. rewrite E0. cbn [JS.toLowerCase append].
  split; [|reflexivity].
  repeat match goal with
         | H : _ = JS.lower_ascii _ |- _ => rewrite <- H; clear H
         end.
  reflexivity.
Qed.

Lemma form_at_shape (s m : string) :
  Regex.form_at s = Some m ->
  exists head blanks digits letter,
    m = (head ++ blanks ++ digits ++ letter)%string
    /\ JS.toLowerCase head = "form"
    /\ Forall (fun c => Regex.isSpace c = true) (chars blanks)
    /\ Forall (fun c => Regex.isDigit c = true) (chars digits)
    /\ digits <> ""
    /\ (letter = "" \/ exists c, letter = String c "" /\ Regex.isLetter c = true).
Proof.
  unfold Regex.form_at.
  destruct (Regex.match_lit None "Form" s) as [[last rest]|] eqn:Em; [|discriminate].
  destruct (Regex.span Regex.isSpace rest) as [blanks r1] eqn:Eb.
  destruct (Regex.span Regex.isDigit r1) as [digits r2] eqn:Ed.
  destruct (String.eqb_spec digits ""); [discriminate|].
  intros [= <-].
  apply match_lit_form in Em as [Hhead _].
  apply span_split in Eb as [_ Hb]. apply span_split in Ed as [_ Hd].
  eexists _, blanks, digits, _. split; [reflexivity|].
  repeat split; auto.
  destruct r2 as [|c r2]; [now left|].
  destruct (Regex.isLetter c) eqn:Ec; [right; now exists c | now left].
Qed.

Lemma match_form_shape (s m : string) :
  Regex.match_form s = Some m -> exists s', Regex.form_at s' = Some m.
Proof.
  induction s as [|c s IH]; cbn [Regex.match_form].
  - destruct (Regex.form_at "") eqn:E; [|discriminate]. intros [= <-]. eauto.
  - destruct (Regex.form_at (String c s)) eqn:E.
    + intros [= <-]. eauto.
    + exact IH.
Qed.

(** X1: whatever the title and summary, the label is one of the ten
    canonical labels of the token list (the spellings [10Q] and [8K] are
    folded into [10-Q] and [8-K]) or a text made of the word [Form] in any
    letter case, optional blanks, at least one digit and at most one
    letter. *)
Theorem detectFilingType_answers (title summary : option string) (label : string) :
  detectFilingType title summary = Some label ->
  In label labels
  \/ exists head blanks digits letter,
       label = (head ++ blanks ++ digits ++ letter)%string
       /\ JS.toLowerCase head = "form"
       /\ Forall (fun c => Regex.isSpace c = true) (chars blanks)
       /\ Forall (fun c => Regex.isDigit c = true) (chars digits)
       /\ digits <> ""
       /\ (letter = "" \/ exists c, letter = String c "" /\ Regex.isLetter c = true).
Proof.
  unfold detectFilingType.
  destruct (first_token tokens _) as [l|] eqn:Et.
  - intros [= <-]. left. apply first_token_in in Et.
    vm_compute in Et. unfold labels. simpl. intuition.
  - intros H. right. apply match_form_shape in H as (s' & H).
    now apply (form_at_shape s').
Qed.

Lemma detectFilingType_answers_witness :
  In "8-K" labels
  \/ exists head blanks digits letter,
       "8-K" = (head ++ blanks ++ digits ++ letter)%string
       /\ JS.toLowerCase head = "form"
       /\ Forall (fun c => Regex.isSpace c = true) (chars blanks)
       /\ Forall (fun c => Regex.isDigit c = true) (chars digits)
       /\ digits <> ""
       /\ (letter = "" \/ exists c, letter = String c "" /\ Regex.isLetter c = true).
Proof.
  apply (detectFilingType_answers (Some "Acme files 8k today") None).
  vm_compute. reflexivity.
Defined.

(** ** Text without a digit *)

Lemma lower_ascii_classes (c : ascii) :
  Regex.isDigit (JS.lower_ascii c) = Regex.isDigit c
  /\ Regex.isLetter (JS.lower_ascii c) = Regex.isLetter c
  /\ Regex.isSpace (JS.lower_ascii c) = Regex.isSpace c
  /\ Regex.isWordChar (JS.lower_ascii c) = Regex.isWordChar c
  /\ JS.lower_ascii (JS.lower_ascii c) = JS.lower_ascii c.
Proof.
  destruct c as [[] [] [] [] [] [] [] []]; vm_compute; repeat split.
Qed.

Lemma chars_app (a b : string) : chars (a ++ b)%string = chars a ++ chars b.
Proof.
  induction a as [|c a IH]; [reflexivity|].
  unfold chars in *. simpl. now rewrite IH.
Qed.

Lemma has_digit_app (a b : string) :
  has_digit (a ++ b)%string = has_digit a || has_digit b.
Proof. unfold has_digit. now rewrite chars_app, existsb_app. Qed.

Lemma has_digit_cons (c : ascii) (s : string) :
  has_digit (String c s) = Regex.isDigit c || has_digit s.
Proof. reflexivity. Qed.

Lemma match_lit_digit (lit : string) :
  has_digit lit = true ->
  forall prev s r, Regex.match_lit prev lit s = Some r -> has_digit s = true.
Proof.
  induction lit as [|t lit IH]; [discriminate|].
  intros Hd prev s r. destruct s as [|c s]; cbn [Regex.match_lit]; [discriminate|].
  destruct (Ascii.eqb_spec (JS.lower_ascii t) (JS.lower_ascii c)) as [E|];
    [|discriminate].
  intros Hm. rewrite has_digit_cons in *.
  apply orb_true_iff in Hd as [Hd|Hd]; apply orb_true_iff.
  - left. destruct (lower_ascii_classes c) as [<- _].
    rewrite <- E. now destruct (lower_ascii_classes t) as [-> _].
  - right. now apply (IH Hd (Some c) s r).
Qed.

Lemma word_from_digit (lit : string) :
  has_digit lit = true ->
  forall s prev, Regex.word_from prev lit s = true -> has_digit s = true.
Proof.
  intros Hd. induction s as [|c s IH]; intros prev; cbn [Regex.word_from];
    unfold Regex.word_at.
  - destruct (Regex.match_lit prev lit "") as [r|] eqn:Em.
    + intros _. now apply (match_lit_digit lit Hd prev "" r).
    + rewrite andb_false_r. discriminate.
  - destruct (Regex.match_lit prev lit (String c s)) as [r|] eqn:Em.
    + intros _. now apply (match_lit_digit lit Hd prev _ r).
    + rewrite andb_false_r. cbn [orb]. intros H. rewrite has_digit_cons.
      apply orb_true_iff. right. now apply (IH (Some c)).
Qed.

Lemma first_token_no_digit (ts : list string) (candidate : string) :
  Forall (fun t => has_digit t = true) ts ->
  has_digit candidate = false ->
  first_token ts candidate = None.
Proof.
  induction 1 as [|t ts Ht _ IH]; intros Hc; [reflexivity|].
  cbn [first_token]. destruct (Regex.test_word t candidate) eqn:E; [|now apply IH].
  apply (word_from_digit t Ht) in E. congruence.
Qed.

Lemma form_at_digit (s m : string) : Regex.form_at s = Some m -> has_digit s = true.
Proof.
  unfold Regex.form_at.
  destruct (Regex.match_lit None "Form" s) as [[last rest]|] eqn:Em; [|discriminate].
  destruct (Regex.span Regex.isSpace rest) as [blanks r1] eqn:Eb.
  destruct (Regex.span Regex.isDigit r1) as [digits r2] eqn:Ed.
  destruct (String.eqb_spec digits ""); [discriminate|]. intros _.
  apply match_lit_form in Em as [_ ->].
  apply span_split in Eb as [-> _]. apply span_split in Ed as [-> Hd].
  rewrite !has_digit_app.
  destruct digits as [|d digits]; [congruence|].
  rewrite has_digit_cons. inversion Hd as [|? ? Hd1 _]; subst. rewrite Hd1.
  cbn [orb]. now rewrite !orb_true_r.
Qed.

Lemma match_form_digit (s m : string) :
  Regex.match_form s = Some m -> has_digit s = true.
Proof.
  induction s as [|c s IH]; cbn [Regex.match_form].
  - destruct (Regex.form_at "") eqn:E; [|discriminate]. intros _.
    now apply form_at_digit in E.
  - destruct (Regex.form_at (String c s)) eqn:E.
    + intros _. now apply form_at_digit in E.
    + intros H. rewrite has_digit_cons. apply orb_true_iff. right. now apply IH.
Qed.

(** X2: a title and summary without any decimal digit are never
    classified: every token of the list and the [Form] pattern need a
    digit, so the answer is [null]. *)
Theorem detectFilingType_needs_digit (title summary : option string) :
  has_digit (JS.or_else title "") = false ->
  has_digit (JS.or_else summary "") = false ->
  detectFilingType title summary = None.
Proof.
  intros Ht Hs. unfold detectFilingType.
  assert (Hc : has_digit (JS.or_else title "" ++ " " ++ JS.or_else summary "")%string
               = false).
  { rewrite !has_digit_app, Ht, Hs. reflexivity. }
  rewrite first_token_no_digit; auto.
  - destruct (Regex.match_form _) as [m|] eqn:E; [|reflexivity].
    apply match_form_digit in E. congruence.
  - unfold tokens. repeat constructor.
Qed.

Lemma detectFilingType_needs_digit_witness :
  detectFilingType (Some "Annual report and proxy statement")
    (Some "Form filed by the company") = None.
Proof.
  apply detectFilingType_needs_digit; vm_compute; reflexivity.
Defined.

(** ** Letter case *)

Lemma toLowerCase_app (a b : string) :
  JS.toLowerCase (a ++ b) = (JS.toLowerCase a ++ JS.toLowerCase b)%string.
Proof. induction a as [|c a IH]; simpl; [reflexivity | now rewrite IH]. Qed.

Lemma toLowerCase_idem (s : string) :
  JS.toLowerCase (JS.toLowerCase s) = JS.toLowerCase s.
Proof.
  induction s as [|c s IH]; simpl; [reflexivity|].
  rewrite IH. now destruct (lower_ascii_classes c) as (_ & _ & _ & _ & ->).
Qed.

Lemma toLowerCase_nil (s : string) : (JS.toLowerCase s =? "")%string = (s =? "")%string.
Proof. destruct s; reflexivity. Qed.

Lemma substring_lower (n m : nat) (s : string) :
  substring n m (JS.toLowerCase s) = JS.toLowerCase (substring n m s).
Proof.
  revert n m. induction s as [|c s IH]; intros [|n] [|m]; simpl; try reflexivity.
  - now rewrite IH.
  - now rewrite IH.
  - now rewrite IH.
Qed.

Lemma head_lower (s : string) :
  Regex.head (JS.toLowerCase s) = option_map JS.lower_ascii (Regex.head s).
Proof. destruct s; reflexivity. Qed.

Lemma isWord_lower (c : option ascii) :
  Regex.isWord (option_map JS.lower_ascii c) = Regex.isWord c.
Proof.
  destruct c as [c|]; [|reflexivity]. simpl.
  now destruct (lower_ascii_classes c) as (_ & _ & _ & -> & _).
Qed.

Lemma boundary_lower (a b : option ascii) :
  Regex.boundary (option_map JS.lower_ascii a) (option_map JS.lower_ascii b)
  = Regex.boundary a b.
Proof. unfold Regex.boundary. now rewrite !isWord_lower. Qed.

Lemma match_lit_lower (lit : string) :
  forall prev s,
    Regex.match_lit (option_map JS.lower_ascii prev) lit (JS.toLowerCase s)
    = option_map (fun r => (option_map JS.lower_ascii (fst r), JS.toLowerCase (snd r)))
        (Regex.match_lit prev lit s).
Proof.
  induction lit as [|t lit IH]; intros prev s; [reflexivity|].
  destruct s as [|c s]; [reflexivity|]. cbn [Regex.match_lit JS.toLowerCase].
  destruct (lower_ascii_classes c) as (_ & _ & _ & _ & ->).
  destruct (Ascii.eqb _ _); [|reflexivity].
  apply (IH (Some c) s).
Qed.

Lemma word_at_lower (prev : option ascii) (lit s : string) :
  Regex.word_at (option_map JS.lower_ascii prev) lit (JS.toLowerCase s)
  = Regex.word_at prev lit s.
Proof.
  unfold Regex.word_at. rewrite head_lower, boundary_lower, match_lit_lower.
  destruct (Regex.match_lit prev lit s) as [[l r]|]; [|reflexivity].
  cbn [option_map fst snd]. now rewrite head_lower, boundary_lower.
Qed.

Lemma word_from_lower (lit s : string) :
  forall prev,
    Regex.word_from (option_map JS.lower_ascii prev) lit (JS.toLowerCase s)
    = Regex.word_from prev lit s.
Proof.
  induction s as [|c s IH]; intros prev.
  - cbn [JS.toLowerCase Regex.word_from].
    rewrite <- (word_at_lower prev lit ""). reflexivity.
  - change (JS.toLowerCase (String c s))
      with (String (JS.lower_ascii c) (JS.toLowerCase s)).
    cbn [Regex.word_from].
    change (String (JS.lower_ascii c) (JS.toLowerCase s))
      with (JS.toLowerCase (String c s)).
    rewrite word_at_lower. f_equal. apply (IH (Some c)).
Qed.

Lemma first_token_lower (ts : list string) (candidate : string) :
  first_token ts (JS.toLowerCase candidate) = first_token ts candidate.
Proof.
  induction ts as [|t ts IH]; [reflexivity|]. cbn [first_token].
  unfold Regex.test_word. pose proof (word_from_lower t candidate None) as H.
  cbn [option_map] in H. now rewrite H, IH.
Qed.

Lemma span_lower (p : ascii -> bool) (s : string) :
  (forall c, p (JS.lower_ascii c) = p c) ->
  Regex.span p (JS.toLowerCase s)
  = (JS.toLowerCase (fst (Regex.span p s)), JS.toLowerCase (snd (Regex.span p s))).
Proof.
  intros Hp. induction s as [|c s IH]; [reflexivity|].
  cbn [Regex.span JS.toLowerCase]. rewrite Hp. destruct (p c); [|reflexivity].
  rewrite IH. now destruct (Regex.span p s).
Qed.

Lemma form_at_lower (s : string) :
  Regex.form_at (JS.toLowerCase s) = option_map JS.toLowerCase (Regex.form_at s).
Proof.
  unfold Regex.form_at.
  pose proof (match_lit_lower "Form" None s) as Hm. cbn [option_map] in Hm.
  rewrite Hm. clear Hm.
  destruct (Regex.match_lit None "Form" s) as [[l rest]|]; [|reflexivity].
  cbn [option_map fst snd].
  rewrite (span_lower Regex.isSpace rest)
    by (intros c; now destruct (lower_ascii_classes c) as (_ & _ & -> & _)).
  destruct (Regex.span Regex.isSpace rest) as [blanks r1]. cbn [fst snd].
  rewrite (span_lower Regex.isDigit r1)
    by (intros c; now destruct (lower_ascii_classes c) as (-> & _)).
  destruct (Regex.span Regex.isDigit r1) as [digits r2]. cbn [fst snd].
  rewrite toLowerCase_nil. destruct (digits =? "")%string; [reflexivity|].
  cbn [option_map]. rewrite !toLowerCase_app, substring_lower. do 4 f_equal.
  destruct r2 as [|c r2]; [reflexivity|]. cbn [JS.toLowerCase].
  destruct (lower_ascii_classes c) as (_ & -> & _).
  now destruct (Regex.isLetter c).
Qed.

Lemma match_form_lower (s : string) :
  Regex.match_form (JS.toLowerCase s)
  = option_map JS.toLowerCase (Regex.match_form s).
Proof.
  induction s as [|c s IH].
  - reflexivity.
  - cbn [Regex.match_form].
    change (JS.toLowerCase (String c s))
      with (String (JS.lower_ascii c) (JS.toLowerCase s)).
    cbn [Regex.match_form].
    change (String (JS.lower_ascii c) (JS.toLowerCase s))
      with (JS.toLowerCase (String c s)).
    rewrite form_at_lower.
    destruct (Regex.form_at (String c s)); [reflexivity | exact IH].
Qed.

Lemma or_else_lower (v : option string) :
  JS.or_else (lower_opt v) "" = JS.toLowerCase (JS.or_else v "").
Proof.
  destruct v as [s|]; [|reflexivity]. unfold JS.or_else, JS.truthy, lower_opt.
  cbn [option_map]. rewrite toLowerCase_nil. now destruct (s =? "")%string.
Qed.

Lemma passes_filter_lower (types : list string) (a b : option string) :
  lower_opt a = lower_opt b -> passes_filter types a = passes_filter types b.
Proof.
  intros E. unfold passes_filter.
  assert (El : JS.toLowerCase (JS.or_else a "") = JS.toLowerCase (JS.or_else b ""))
    by now rewrite <- !or_else_lower, E.
  now rewrite El.
Qed.

(** X3: on ASCII text the classifier does not look at letter case.
    Lowering an ASCII title and an ASCII summary gives the same label up to
    letter case (the very same label when a token of the list is found),
    and therefore the same verdict of the type filter. *)
Theorem detectFilingType_ignores_case (title summary : option string) :
  ascii_opt title -> ascii_opt summary ->
  lower_opt (detectFilingType (lower_opt title) (lower_opt summary))
  = lower_opt (detectFilingType title summary)
  /\ (forall label, In label labels ->
        detectFilingType title summary = Some label <->
        detectFilingType (lower_opt title) (lower_opt summary) = Some label)
  /\ (forall types,
        passes_filter types (detectFilingType (lower_opt title) (lower_opt summary))
        = passes_filter types (detectFilingType title summary)).
Proof.
  intros _ _.
  assert (Ec : (JS.or_else (lower_opt title) "" ++ " "
                ++ JS.or_else (lower_opt summary) "")%string
               = JS.toLowerCase (JS.or_else title "" ++ " " ++ JS.or_else summary "")).
  { now rewrite !toLowerCase_app, !or_else_lower. }
  assert (E : lower_opt (detectFilingType (lower_opt title) (lower_opt summary))
              = lower_opt (detectFilingType title summary)).
  { unfold detectFilingType. rewrite Ec, first_token_lower.
    destruct (first_token tokens _); [reflexivity|].
    rewrite match_form_lower. unfold lower_opt.
    destruct (Regex.match_form _); cbn [option_map]; [|reflexivity].
    now rewrite toLowerCase_idem. }
  split; [exact E|]. split.
  - intros label Hl. unfold detectFilingType. rewrite Ec, first_token_lower.
    destruct (first_token tokens _) as [l|]; [reflexivity|].
    rewrite match_form_lower.
    destruct (Regex.match_form _) as [m|] eqn:Em; cbn [option_map]; [|reflexivity].
    apply match_form_shape in Em as (s' & Em).
    apply form_at_shape in Em as (h & bl & dg & lt & -> & Hh & _).
    assert (Hlen : forall x, JS.toLowerCase (substring 0 4 x) = "form" ->
                             In x labels -> False).
    { intros x Hx Hin. unfold labels in Hin. simpl in Hin.
      repeat (destruct Hin as [<-|Hin]; [discriminate Hx|]). exact Hin. }
    assert (Hsub : forall y, JS.toLowerCase (substring 0 4 (h ++ y)) = "form").
    { intros y. destruct h as [|c1 [|c2 [|c3 [|c4 [|c5 h]]]]]; try discriminate Hh.
      cbn [append substring]. destruct y; exact Hh. }
    split; intros [= Hx]; exfalso.
    + apply (Hlen label); [rewrite <- Hx; apply Hsub | exact Hl].
    + apply (Hlen label); [|exact Hl]. rewrite <- Hx, <- substring_lower.
      rewrite toLowerCase_idem, substring_lower. apply Hsub.
  - intros types. now apply passes_filter_lower.
Qed.

Lemma detectFilingType_ignores_case_witness :
  lower_opt (detectFilingType (Some "form 4a filed") (Some "see 10-k"))
  = lower_opt (detectFilingType (Some "FORM 4A filed") (Some "see 10-K")).
Proof.
  refine (proj1 (detectFilingType_ignores_case
                   (Some "FORM 4A filed") (Some "see 10-K") _ _));
    unfold ascii_opt, ascii_only; cbn [chars];
    repeat (constructor; [reflexivity|]); constructor.
Defined.

(** ** The type filter as a substring test *)

Lemma prefix_refl (s : string) : String.prefix s s = true.
Proof.
  induction s as [|c s IH]; simpl; [reflexivity|].
  destruct (ascii_dec c c); [exact IH | congruence].
Qed.

Lemma includes_refl (s : string) : JS.includes s s = true.
Proof. destruct s; cbn [JS.includes]; now rewrite prefix_refl. Qed.

Lemma passes_filter_includes (types : list string) (detectedType : option string) :
  types <> [] -> passes_filter types detectedType = true ->
  exists t, In t types
            /\ JS.includes (JS.toLowerCase (JS.or_else detectedType ""))
                 (JS.toLowerCase t) = true.
Proof.
  intros Hne. unfold passes_filter. destruct types as [|t0 ts]; [congruence|].
  change (0 <? Z.of_nat (length (t0 :: ts))) with true. cbv iota.
  unfold JS.some. rewrite existsb_exists. intros (t & Hin & Ht).
  exists t. split; [exact Hin|].
  apply orb_true_iff in Ht as [Ht|Ht]; [|exact Ht].
  apply String.eqb_eq in Ht. rewrite Ht. apply includes_refl.
Qed.

(** X4: with a non-empty [filingTypes] an entry passes exactly when some
    configured value, lowered, occurs inside the lowered label (the empty
    text for an unknown type); the equality test of the source adds nothing
    to the substring test.  An empty [filingTypes] lets everything pass. *)
Theorem passes_filter_is_substring_test (types : list string)
        (detectedType : option string) :
  passes_filter types detectedType = true <->
  types = []
  \/ exists t, In t types
               /\ JS.includes (JS.toLowerCase (JS.or_else detectedType ""))
                    (JS.toLowerCase t) = true.
Proof.
  destruct types as [|t0 ts].
  - split; [now left | reflexivity].
  - split.
    + intros H. right. apply passes_filter_includes; [discriminate | exact H].
    + intros [H|(t & Hin & Ht)]; [discriminate|].
      unfold passes_filter.
      change (0 <? Z.of_nat (length (t0 :: ts))) with true. cbv iota.
      unfold JS.some. apply existsb_exists.
      exists t. split; [exact Hin|]. rewrite Ht. apply orb_true_r.
Qed.

(** ** A poll that throws *)

Lemma normalize_throw_message (Date_parse : string -> option Z)
      (entries : list RawEntry) (err : string) :
  normalize Date_parse entries = Throw err ->
  err = "RangeError: Invalid time value".
Proof.
  induction entries as [|e es IH]; cbn [normalize]; [discriminate|].
  unfold normalize_entry at 1.
  destruct (JS.truthy (r_updated e)); cbn [bind].
  - destruct (Date_parse _); cbn [bind].
    + destruct (normalize Date_parse es); cbn [bind]; [discriminate|].
      intros [= <-]. now apply IH.
    + now intros [= <-].
  - destruct (normalize Date_parse es); cbn [bind]; [discriminate|].
    intros [= <-]. now apply IH.
Qed.

(** X5: one entry whose timestamp is present but does not read as a date
    makes the whole poll throw a [RangeError]: no row is pushed, no body is
    posted, the store is not written, and a run goes on with the next poll
    from the same store. *)
Theorem bad_timestamp_aborts_poll (Date_parse : string -> option Z)
        (fetch_text : string -> option string) (input : Input) (url : string)
        (userData_company : option string)
        (entries : list RawEntry) (e : RawEntry) (kv : option Stored)
        (rest : list (list RawEntry)) :
  In e entries ->
  JS.truthy (r_updated e) = true ->
  Date_parse (JS.or_else (r_updated e) "") = None ->
  requestHandler Date_parse fetch_text input url userData_company entries kv
  = Throw "RangeError: Invalid time value"
  /\ run Date_parse fetch_text input url userData_company (entries :: rest) kv
     = run Date_parse fetch_text input url userData_company rest kv.
Proof.
  intros Hin Ht Hd.
  destruct (normalize_throws Date_parse entries e Hin Ht Hd) as (err & Hn).
  pose proof (normalize_throw_message _ _ _ Hn) as ->.
  assert (Hne : entries <> []) by (destruct entries; [destruct Hin | discriminate]).
  assert (Hw : toConsider Date_parse input entries
               = Throw "RangeError: Invalid time value")
    by (unfold toConsider; now rewrite Hn).
  pose proof (requestHandler_throw Date_parse fetch_text input url userData_company
                entries kv _ Hne Hw) as Hr.
  split; [exact Hr|]. cbn [run]. now rewrite Hr.
Qed.

Lemma bad_timestamp_aborts_poll_witness :
  requestHandler IsoDate.Date_parse Sample.no_fetch Sample.accept_all
    Sample.apple Sample.cik [Sample.jan1; Sample.garbled; Sample.jan3] None
  = Throw "RangeError: Invalid time value"
  /\ run IsoDate.Date_parse Sample.no_fetch Sample.accept_all Sample.apple Sample.cik
       [[Sample.jan1; Sample.garbled; Sample.jan3]; [Sample.jan1]] None
     = run IsoDate.Date_parse Sample.no_fetch Sample.accept_all Sample.apple
         Sample.cik [[Sample.jan1]] None.
Proof.
  apply (bad_timestamp_aborts_poll IsoDate.Date_parse Sample.no_fetch
           Sample.accept_all Sample.apple Sample.cik
           [Sample.jan1; Sample.garbled; Sample.jan3] Sample.garbled None
           [[Sample.jan1]]).
  - simpl. right. now left.
  - reflexivity.
  - vm_compute. reflexivity.
Defined.

(** ** What a poll pushes *)

Lemma requestHandler_inv (Date_parse : string -> option Z)
      (fetch_text : string -> option string) (input : Input) (url : string)
      (userData_company : option string)
      (entries : list RawEntry) (kv : option Stored) (out : Poll) :
  entries <> [] ->
  requestHandler Date_parse fetch_text input url userData_company entries kv
  = Normal out ->
  exists window older latest,
    toConsider Date_parse input entries = Normal window
    /\ window = older ++ [latest]
    /\ out = (kv,
              map (item_of fetch_text input url userData_company)
                (filter (accepted input) (newItems (read_cursor kv) window)),
              if JS.truthy (Some (webhookUrl input))
              then map (payload_of url)
                     (filter (accepted input) (newItems (read_cursor kv) window))
              else []).
Proof.
  intros Hne Hr.
  destruct (toConsider Date_parse input entries) as [w|err] eqn:Hw.
  - destruct (toConsider_facts _ _ _ _ Hw) as (_ & _ & Hnonempty).
    destruct (requestHandler_latest Date_parse fetch_text input url
                userData_company entries kv w Hw (Hnonempty Hne))
      as (older & latest & E & _ & _ & Hr').
    rewrite Hr' in Hr. injection Hr as <-. now exists w, older, latest.
  - rewrite (requestHandler_throw _ _ _ _ _ _ _ _ Hne Hw) in Hr. discriminate.
Qed.

Lemma window_ids (Date_parse : string -> option Z) (input : Input)
      (entries : list RawEntry) (w : list Entry) :
  toConsider Date_parse input entries = Normal w ->
  incl (map e_id w) (map canonical_id entries)
  /\ (length w <= length entries)%nat
  /\ (maxEntriesPerFeed input <> 0 ->
      Z.of_nat (length w) <= Z.abs (maxEntriesPerFeed input)).
Proof.
  intros Hw. apply toConsider_inv in Hw as (ns & Hns & ->).
  pose proof (normalize_ids _ _ _ Hns) as Hids.
  pose proof (normalize_length _ _ _ Hns) as Hlen.
  pose proof (sort_by_updated_perm ns) as Hp.
  destruct (cap_suffix input (sort_by_updated ns)) as (dropped & Hd).
  split; [|split].
  - intros i Hi. rewrite <- Hids.
    apply (Permutation_in _ (Permutation_sym (Permutation_map e_id Hp))).
    rewrite Hd, map_app. apply in_or_app. now right.
  - rewrite <- Hlen, (Permutation_length Hp). rewrite Hd at 2.
    rewrite length_app. lia.
  - intros Hm. unfold cap. rewrite slice_last by lia. rewrite length_skipn. lia.
Qed.

(** X6: a poll that returns pushes at most as many rows as the batch has
    entries, at most [|maxEntriesPerFeed|] rows when that option is not
    zero, never more webhook bodies than rows, and every row carries the
    canonical id of an entry of the batch. *)
Theorem poll_volume_is_bounded (Date_parse : string -> option Z)
        (fetch_text : string -> option string) (input : Input) (url : string)
        (userData_company : option string)
        (entries : list RawEntry) (kv kv' : option Stored)
        (rows : list Item) (bodies : list Payload) :
  requestHandler Date_parse fetch_text input url userData_company entries kv
  = Normal (kv', rows, bodies) ->
  (length rows <= length entries)%nat
  /\ (maxEntriesPerFeed input <> 0 ->
      Z.of_nat (length rows) <= Z.abs (maxEntriesPerFeed input))
  /\ (length bodies <= length rows)%nat
  /\ Forall (fun row => In (filingId row) (map canonical_id entries)) rows.
Proof.
  intros Hr. destruct entries as [|e0 es] eqn:Ee.
  { injection Hr as <- <- <-. repeat split; auto. intros _. simpl. lia. }
  rewrite <- Ee in *.
  assert (Hne : entries <> []) by (rewrite Ee; discriminate).
  destruct (requestHandler_inv _ _ _ _ _ _ _ _ Hne Hr)
    as (w & older & latest & Hw & _ & [= -> -> ->]).
  destruct (window_ids _ _ _ _ Hw) as (Hids & Hlen & Hcap).
  destruct (newItems_suffix (read_cursor kv) w) as (skipped & Es).
  set (fresh := newItems (read_cursor kv) w) in *.
  assert (Hf : (length (filter (accepted input) fresh) <= length w)%nat).
  { pose proof (filter_length_le (accepted input) fresh).
    pose proof (f_equal (@length Entry) Es) as El. rewrite length_app in El. lia. }
  rewrite !length_map. split; [lia|]. split; [intros Hm; specialize (Hcap Hm); lia|].
  split.
  - destruct (negb _); [rewrite length_map; lia | simpl; lia].
  - apply Forall_forall. intros row Hrow.
    apply in_map_iff in Hrow as (x & <- & Hx). apply filter_In in Hx as [Hx _].
    apply Hids. change (filingId (item_of fetch_text input url userData_company x))
      with (e_id x).
    apply in_map. rewrite Es. apply in_or_app. now right.
Qed.

Lemma poll_volume_is_bounded_witness :
  (length (map (item_of Sample.no_fetch Sample.cap_two Sample.apple Sample.cik)
             [Sample.n_jan4; Sample.n_jan5]) <= length Sample.five)%nat.
Proof.
  assert (Hr : requestHandler IsoDate.Date_parse Sample.no_fetch Sample.cap_two
                 Sample.apple Sample.cik Sample.five None
               = Normal (None,
                         map (item_of Sample.no_fetch Sample.cap_two Sample.apple
                                Sample.cik) [Sample.n_jan4; Sample.n_jan5],
                         [])) by (vm_compute; reflexivity).
  exact (proj1 (poll_volume_is_bounded _ _ _ _ _ _ _ _ _ _ Hr)).
Defined.

(** X7: the webhook mirrors the dataset.  With an empty [webhookUrl]
    nothing is posted; otherwise exactly one body is posted per row pushed,
    in the same order, carrying the row's id, type, title, link, time and
    feed address. *)
Theorem webhook_mirrors_dataset (Date_parse : string -> option Z)
        (fetch_text : string -> option string) (input : Input) (url : string)
        (userData_company : option string)
        (entries : list RawEntry) (kv kv' : option Stored)
        (rows : list Item) (bodies : list Payload) :
  requestHandler Date_parse fetch_text input url userData_company entries kv
  = Normal (kv', rows, bodies) ->
  (webhookUrl input = "" -> bodies = [])
  /\ (webhookUrl input <> "" ->
      bodies = map (fun row =>
                      {| p_filingId := filingId row;
                         p_filingType := filingType row;
                         p_title := title row;
                         p_link := link row;
                         p_publishedAt := publishedAt row;
                         p_feedUrl := feedUrl row |}) rows).
Proof.
  intros Hr. destruct entries as [|e0 es] eqn:Ee.
  { injection Hr as <- <- <-. now split. }
  rewrite <- Ee in *.
  assert (Hne : entries <> []) by (rewrite Ee; discriminate).
  destruct (requestHandler_inv _ _ _ _ _ _ _ _ Hne Hr)
    as (w & older & latest & Hw & _ & [= -> -> ->]).
  split.
  - intros ->. reflexivity.
  - intros Hu. destruct (String.eqb_spec (webhookUrl input) ""); [contradiction|].
    cbn [negb]. rewrite map_map. reflexivity.
Qed.

Lemma webhook_mirrors_dataset_witness :
  [payload_of Sample.apple Sample.n_jan3]
  = map (fun row =>
           {| p_filingId := filingId row;
              p_filingType := filingType row;
              p_title := title row;
              p_link := link row;
              p_publishedAt := publishedAt row;
              p_feedUrl := feedUrl row |})
      [item_of Sample.no_fetch Sample.only_10k Sample.apple Sample.cik Sample.n_jan3].
Proof.
  assert (Hr : requestHandler IsoDate.Date_parse Sample.no_fetch Sample.only_10k
                 Sample.apple Sample.cik [Sample.jan2; Sample.jan3] None
               = Normal (None,
                         [item_of Sample.no_fetch Sample.only_10k Sample.apple
                            Sample.cik Sample.n_jan3],
                         [payload_of Sample.apple Sample.n_jan3]))
    by (vm_compute; reflexivity).
  apply (proj2 (webhook_mirrors_dataset _ _ _ _ _ _ _ _ _ _ Hr)).
  discriminate.
Defined.

(** X8: every row a poll pushes carries the address and the company of the
    request, a type that is the classifier's answer on the row's own title
    and summary, and that type passes the configured filter; the full text
    is absent unless [includeFullFiling] is set and the entry has a link. *)
Theorem pushed_rows_are_consistent (Date_parse : string -> option Z)
        (fetch_text : string -> option string) (input : Input) (url : string)
        (userData_company : option string)
        (entries : list RawEntry) (kv kv' : option Stored)
        (rows : list Item) (bodies : list Payload) :
  requestHandler Date_parse fetch_text input url userData_company entries kv
  = Normal (kv', rows, bodies) ->
  Forall (fun row =>
            feedUrl row = url
            /\ company row = userData_company
            /\ filingType row = detectFilingType (title row) (summary row)
            /\ passes_filter (filingTypes input) (filingType row) = true
            /\ (includeFullFiling input = false -> fullFilingText row = None)
            /\ (JS.truthy (link row) = false -> fullFilingText row = None)
            /\ (includeFullFiling input = true -> JS.truthy (link row) = true ->
                fullFilingText row = fetch_text (JS.or_else (link row) "")))
         rows.
Proof.
  intros Hr. destruct entries as [|e0 es] eqn:Ee.
  { injection Hr as <- <- <-. constructor. }
  rewrite <- Ee in *.
  assert (Hne : entries <> []) by (rewrite Ee; discriminate).
  destruct (requestHandler_inv _ _ _ _ _ _ _ _ Hne Hr)
    as (w & older & latest & Hw & _ & [= -> -> ->]).
  apply Forall_forall. intros row Hrow.
  apply in_map_iff in Hrow as (x & <- & Hx). apply filter_In in Hx as [_ Hx].
  unfold item_of, make_item. cbn [feedUrl company filingType title summary link
                                    fullFilingText].
  repeat split; auto.
  - intros ->. reflexivity.
  - intros ->. now rewrite andb_false_r.
  - intros -> ->. reflexivity.
Qed.

Lemma pushed_rows_are_consistent_witness :
  Forall (fun row =>
            feedUrl row = Sample.apple
            /\ company row = Sample.cik
            /\ filingType row = detectFilingType (title row) (summary row)
            /\ passes_filter (filingTypes Sample.only_10k) (filingType row) = true
            /\ (includeFullFiling Sample.only_10k = false -> fullFilingText row = None)
            /\ (JS.truthy (link row) = false -> fullFilingText row = None)
            /\ (includeFullFiling Sample.only_10k = true ->
                JS.truthy (link row) = true ->
                fullFilingText row = Sample.no_fetch (JS.or_else (link row) "")))
    [item_of Sample.no_fetch Sample.only_10k Sample.apple Sample.cik Sample.n_jan3].
Proof.
  assert (Hr : requestHandler IsoDate.Date_parse Sample.no_fetch Sample.only_10k
                 Sample.apple Sample.cik [Sample.jan2; Sample.jan3] None
               = Normal (None,
                         [item_of Sample.no_fetch Sample.only_10k Sample.apple
                            Sample.cik Sample.n_jan3],
                         [payload_of Sample.apple Sample.n_jan3]))
    by (vm_compute; reflexivity).
  exact (pushed_rows_are_consistent _ _ _ _ _ _ _ _ _ _ Hr).
Defined.

(** ** The two forms of the stored cursor *)

(** X9: the rows and the bodies of a poll depend on the store only through
    the id read from it.  A store that holds the bare string [s] and a store
    that holds an object with [lastSeenId = s] make the poll push the same
    rows and post the same bodies, or throw the same error; each store is
    left in the form it had. *)
Theorem legacy_cursor_is_equivalent (Date_parse : string -> option Z)
        (fetch_text : string -> option string) (input : Input) (url : string)
        (userData_company : option string)
        (entries : list RawEntry) (kv1 kv2 : option Stored) :
  read_cursor kv1 = read_cursor kv2 ->
  match requestHandler Date_parse fetch_text input url userData_company entries kv1,
        requestHandler Date_parse fetch_text input url userData_company entries kv2
  with
  | Normal (kv1', rows1, bodies1), Normal (kv2', rows2, bodies2) =>
      kv1' = kv1 /\ kv2' = kv2 /\ rows1 = rows2 /\ bodies1 = bodies2
  | Throw err1, Throw err2 => err1 = err2
  | _, _ => False
  end.
Proof.
  intros Hc. destruct entries as [|e0 es] eqn:Ee; [cbn; auto|].
  rewrite <- Ee.
  assert (Hne : entries <> []) by (rewrite Ee; discriminate).
  destruct (toConsider Date_parse input entries) as [w|err] eqn:Hw.
  - rewrite !(requestHandler_window _ _ _ _ _ _ _ w Hne Hw). now rewrite Hc.
  - now rewrite !(requestHandler_throw _ _ _ _ _ _ _ err Hne Hw).
Qed.

Lemma legacy_cursor_is_equivalent_witness :
  match requestHandler IsoDate.Date_parse Sample.no_fetch Sample.accept_all
          Sample.apple Sample.cik [Sample.jan1; Sample.jan2] (Some (Bare "urn:a")),
        requestHandler IsoDate.Date_parse Sample.no_fetch Sample.accept_all
          Sample.apple Sample.cik [Sample.jan1; Sample.jan2]
          (Some (Structured (Some "urn:a") Sample.apple))
  with
  | Normal (kv1', rows1, bodies1), Normal (kv2', rows2, bodies2) =>
      kv1' = Some (Bare "urn:a")
      /\ kv2' = Some (Structured (Some "urn:a") Sample.apple)
      /\ rows1 = rows2 /\ bodies1 = bodies2
  | Throw err1, Throw err2 => err1 = err2
  | _, _ => False
  end.
Proof.
  apply (legacy_cursor_is_equivalent IsoDate.Date_parse Sample.no_fetch
           Sample.accept_all Sample.apple Sample.cik [Sample.jan1; Sample.jan2]
           (Some (Bare "urn:a")) (Some (Structured (Some "urn:a") Sample.apple))).
  reflexivity.
Defined.

(** ** Document order and chronological order *)

Lemma normalize_of_pointwise (Date_parse : string -> option Z)
      (entries : list RawEntry) (ns : list Entry) :
  Forall2 (fun r n => normalize_entry Date_parse r = Normal n) entries ns ->
  normalize Date_parse entries = Normal ns.
Proof.
  induction 1 as [|r n rs ns' Hr _ IH]; [reflexivity|].
  cbn [normalize]. rewrite Hr. cbn [bind]. rewrite IH. reflexivity.
Qed.

Lemma sorted_perm_unique (l1 : list Entry) :
  forall l2,
    StronglySorted le_time l1 -> StronglySorted le_time l2 ->
    Permutation l1 l2 -> NoDup (map time_of l1) -> l1 = l2.
Proof.
  induction l1 as [|x l1 IH]; intros l2 H1 H2 Hp Hnd.
  - now apply Permutation_nil in Hp.
  - destruct l2 as [|y l2].
    { apply Permutation_sym, Permutation_nil in Hp. discriminate. }
    apply StronglySorted_inv in H1 as [H1 Hx].
    apply StronglySorted_inv in H2 as [H2 Hy].
    cbn [map] in Hnd. apply NoDup_cons_iff in Hnd as [Hnot Hnd].
    assert (Exy : x = y).
    { assert (Hyin : In y (x :: l1))
        by (apply (Permutation_in _ (Permutation_sym Hp)); now left).
      destruct Hyin as [E|Hyin]; [exact E|].
      assert (Hxin : In x (y :: l2)) by (apply (Permutation_in _ Hp); now left).
      destruct Hxin as [E|Hxin]; [now symmetry|].
      rewrite Forall_forall in Hx, Hy.
      pose proof (Hx y Hyin) as Hle1. pose proof (Hy x Hxin) as Hle2.
      unfold le_time in *. exfalso. apply Hnot.
      replace (time_of x) with (time_of y) by lia. now apply in_map. }
    subst y. f_equal. apply IH; auto. now apply Permutation_cons_inv in Hp.
Qed.

(** X10: when the entries of a batch carry pairwise distinct times, the
    order in which the document lists them does not matter: every
    rearrangement of the batch gives the same window and the same outcome of
    the poll. *)
Theorem document_order_is_irrelevant (Date_parse : string -> option Z)
        (fetch_text : string -> option string) (input : Input) (url : string)
        (userData_company : option string)
        (entries entries' : list RawEntry) (ns : list Entry) :
  Permutation entries entries' ->
  normalize Date_parse entries = Normal ns ->
  NoDup (map time_of ns) ->
  toConsider Date_parse input entries' = toConsider Date_parse input entries
  /\ forall kv,
       requestHandler Date_parse fetch_text input url userData_company entries' kv
       = requestHandler Date_parse fetch_text input url userData_company entries kv.
Proof.
  intros Hp Hn Hnd.
  destruct (Permutation_Forall2 Hp (normalize_pointwise _ _ _ Hn))
    as (ns' & Hpn & Hf).
  apply normalize_of_pointwise in Hf.
  assert (Es : sort_by_updated ns = sort_by_updated ns').
  { apply sorted_perm_unique; try apply sort_by_updated_sorted.
    - eapply perm_trans; [apply Permutation_sym, sort_by_updated_perm|].
      eapply perm_trans; [exact Hpn | apply sort_by_updated_perm].
    - apply (Permutation_NoDup (Permutation_map time_of (sort_by_updated_perm ns))).
      exact Hnd. }
  assert (Ew : toConsider Date_parse input entries'
               = toConsider Date_parse input entries).
  { unfold toConsider. rewrite Hn, Hf. cbn [bind]. now rewrite Es. }
  split; [exact Ew|]. intros kv. unfold requestHandler.
  destruct entries as [|e es], entries' as [|e' es'].
  - reflexivity.
  - apply Permutation_nil in Hp. discriminate.
  - apply Permutation_sym, Permutation_nil in Hp. discriminate.
  - now rewrite Ew.
Qed.

Lemma document_order_is_irrelevant_witness :
  toConsider IsoDate.Date_parse Sample.cap_two [Sample.jan2; Sample.jan1; Sample.jan3]
  = toConsider IsoDate.Date_parse Sample.cap_two [Sample.jan1; Sample.jan2; Sample.jan3].
Proof.
  assert (Hn : normalize IsoDate.Date_parse [Sample.jan1; Sample.jan2; Sample.jan3]
               = Normal [Sample.n_jan1; Sample.n_jan2; Sample.n_jan3])
    by (vm_compute; reflexivity).
  refine (proj1 (document_order_is_irrelevant IsoDate.Date_parse Sample.no_fetch
                   Sample.cap_two Sample.apple Sample.cik _ _ _ _ Hn _)).
  - apply perm_swap.
  - repeat constructor; simpl; intuition discriminate.
Defined.

Lemma sort_of_sorted (l : list Entry) :
  StronglySorted le_time l -> sort_by_updated l = l.
Proof.
  induction 1 as [|x l Hl IH Hx]; [reflexivity|].
  cbn [sort_by_updated]. rewrite IH. destruct l as [|y l']; [reflexivity|].
  cbn [insert_by_time]. inversion Hx as [|? ? Hxy _]; subst.
  unfold le_time in Hxy. now destruct (Z.leb_spec (time_of x) (time_of y)); [|lia].
Qed.

Lemma undated_sorted (l : list Entry) :
  Forall (fun n => e_updated n = None) l -> StronglySorted le_time l.
Proof.
  induction 1 as [|x l Hx Hl IH]; constructor; [exact IH|].
  eapply Forall_impl; [|exact Hl]. intros y Hy. unfold le_time, time_of.
  rewrite Hx, Hy. lia.
Qed.

(** X11: a batch that is already in ascending order of time, and in
    particular a batch in which no entry has a timestamp, keeps its
    document order: the window is then made of the entries that come last
    in the document. *)
Theorem sorted_batch_keeps_document_order (Date_parse : string -> option Z)
        (input : Input) (entries : list RawEntry) (ns : list Entry) :
  normalize Date_parse entries = Normal ns ->
  StronglySorted le_time ns \/ Forall (fun n => e_updated n = None) ns ->
  sort_by_updated ns = ns
  /\ toConsider Date_parse input entries = Normal (cap input ns)
  /\ exists dropped, ns = dropped ++ cap input ns.
Proof.
  intros Hn Hs.
  assert (Hsorted : StronglySorted le_time ns)
    by (destruct Hs as [Hs|Hs]; [exact Hs | now apply undated_sorted]).
  pose proof (sort_of_sorted ns Hsorted) as E.
  split; [exact E|]. split.
  - unfold toConsider. rewrite Hn. cbn [bind]. now rewrite E.
  - apply cap_suffix.
Qed.

Lemma sorted_batch_keeps_document_order_witness :
  toConsider IsoDate.Date_parse Sample.cap_two
    [Sample.undated; Sample.undated; Sample.undated]
  = Normal (cap Sample.cap_two [Sample.n_undated; Sample.n_undated; Sample.n_undated]).
Proof.
  assert (Hn : normalize IsoDate.Date_parse
                 [Sample.undated; Sample.undated; Sample.undated]
               = Normal [Sample.n_undated; Sample.n_undated; Sample.n_undated])
    by (vm_compute; reflexivity).
  refine (proj1 (proj2 (sorted_batch_keeps_document_order IsoDate.Date_parse
                          Sample.cap_two _ _ Hn _))).
  right. repeat constructor.
Defined.

(** ** What follows the stored cursor *)

(** X12: a poll whose store names an entry of the window pushes exactly the
    accepted entries that follow the first entry bearing that id, in order
    (none when nothing follows), posts their bodies when a webhook is
    configured, and leaves the store as it found it. *)
Theorem next_poll_pushes_what_follows (Date_parse : string -> option Z)
        (fetch_text : string -> option string) (input : Input) (url : string)
        (userData_company : option string)
        (entries : list RawEntry) (kv : option Stored) (c : string)
        (before fresh : list Entry) (same : Entry) :
  toConsider Date_parse input entries = Normal (before ++ same :: fresh) ->
  read_cursor kv = Some c ->
  e_id same = c ->
  (forall x, In x before -> e_id x <> c) ->
  requestHandler Date_parse fetch_text input url userData_company entries kv
  = Normal (kv,
            map (item_of fetch_text input url userData_company)
              (filter (accepted input) fresh),
            if JS.truthy (Some (webhookUrl input))
            then map (payload_of url) (filter (accepted input) fresh)
            else []).
Proof.
  intros Hw Hc Hsame Hbefore.
  assert (Hne : entries <> []).
  { intros ->. rewrite toConsider_nil in Hw. injection Hw as Hw.
    now destruct before. }
  rewrite (requestHandler_window _ _ _ _ _ _ _ _ Hne Hw), Hc.
  rewrite newItems_found; auto. now apply (read_cursor_truthy kv).
Qed.

Lemma next_poll_pushes_what_follows_witness :
  requestHandler IsoDate.Date_parse Sample.no_fetch Sample.accept_all
    Sample.apple Sample.cik [Sample.jan3; Sample.jan2; Sample.jan1]
    (Some (Structured (Some "urn:b") Sample.apple))
  = Normal (Some (Structured (Some "urn:b") Sample.apple),
            map (item_of Sample.no_fetch Sample.accept_all Sample.apple Sample.cik)
              [Sample.n_jan3],
            []).
Proof.
  assert (Hw : toConsider IsoDate.Date_parse Sample.accept_all
                 [Sample.jan3; Sample.jan2; Sample.jan1]
               = Normal ([Sample.n_jan1] ++ Sample.n_jan2 :: [Sample.n_jan3]))
    by (vm_compute; reflexivity).
  apply (next_poll_pushes_what_follows IsoDate.Date_parse Sample.no_fetch
           Sample.accept_all Sample.apple Sample.cik
           [Sample.jan3; Sample.jan2; Sample.jan1]
           (Some (Structured (Some "urn:b") Sample.apple)) "urn:b"
           [Sample.n_jan1] [Sample.n_jan3] Sample.n_jan2 Hw).
  - reflexivity.
  - reflexivity.
  - intros x [<-|[]]. discriminate.
Defined.

Example uri_samples :
  URI.encodeURIComponent "BRK.A & co/1" = "BRK.A%20%26%20co%2F1"
  /\ URI.decodeURIComponent "BRK.A%20%26%20co%2f1" = Normal "BRK.A & co/1"
  /\ URI.decodeURIComponent "caf%C3%A9" = Normal (String "c" (String "a" (String "f"
       (String (ascii_of_N 195) (String (ascii_of_N 169) "")))))
  /\ URI.decodeURIComponent "%C0%80" = URI.malformed
  /\ URI.decodeURIComponent "%ED%A0%80" = URI.malformed
  /\ URI.decodeURIComponent "%E2%82" = URI.malformed
  /\ URI.decodeURIComponent "100%" = URI.malformed
  /\ URI.decodeURIComponent "%zz" = URI.malformed
  /\ URI.decodeURIComponent "%F0%9F%98%80" <> URI.malformed
  /\ company_of Sample.apple = Sample.cik
  /\ trim "  10-K  filed  " = "10-K  filed".
Proof. repeat split; try (vm_compute; reflexivity). vm_compute. discriminate. Qed.

(** ** The shape of hashed ids and store keys *)

Lemma hex_digit_lower (n : Z) : 0 <= n < 16 -> isLowerHex (SHA1.hex_digit n) = true.
Proof.
  intros H. unfold SHA1.hex_digit, isLowerHex, Regex.isDigit, Regex.in_range.
  destruct (Z.ltb_spec n 10) as [Hlt|Hge];
    rewrite N_ascii_embedding by lia; apply orb_true_iff; [left | right];
    apply andb_true_iff; split; apply N.leb_le; lia.
Qed.

Lemma hex_word_shape (n : nat) (x : Z) :
  length (chars (SHA1.hex_word n x)) = n
  /\ Forall (fun c => isLowerHex c = true) (chars (SHA1.hex_word n x)).
Proof.
  induction n as [|n [IHl IHf]]; [split; [reflexivity | constructor]|].
  cbn [SHA1.hex_word]. unfold chars in *. cbn [list_ascii_of_string length].
  split; [now rewrite IHl|]. constructor; [|exact IHf].
  apply hex_digit_lower. apply Z.mod_pos_bound. lia.
Qed.

Lemma hex_shape (s : string) :
  length (chars (SHA1.hex s)) = 40%nat
  /\ Forall (fun c => isLowerHex c = true) (chars (SHA1.hex s)).
Proof.
  unfold SHA1.hex. destruct (SHA1.digest _) as [[[[h0 h1] h2] h3] h4].
  rewrite !chars_app, !length_app, !Forall_app.
  destruct (hex_word_shape 8 h0) as [-> ?], (hex_word_shape 8 h1) as [-> ?],
    (hex_word_shape 8 h2) as [-> ?], (hex_word_shape 8 h3) as [-> ?],
    (hex_word_shape 8 h4) as [-> ?].
  repeat split; auto.
Qed.

(** X13: the canonical id is never the empty string, and when the entry
    has neither a usable id nor a usable link it is a text of 40 lowercase
    hexadecimal digits. *)
Theorem canonical_id_shape (e : RawEntry) :
  canonical_id e <> ""
  /\ (JS.truthy (r_id e) = false -> JS.truthy (r_link e) = false ->
      length (chars (canonical_id e)) = 40%nat
      /\ Forall (fun c => isLowerHex c = true) (chars (canonical_id e))).
Proof.
  split; [apply canonical_id_nonempty|].
  intros Hid Hlink. unfold canonical_id.
  rewrite (or_else_falsy _ _ Hid), (or_else_falsy _ _ Hlink). apply hex_shape.
Qed.

Lemma lower_hex_is_word (c : ascii) : isLowerHex c = true -> Regex.isWordChar c = true.
Proof.
  destruct c as [[] [] [] [] [] [] [] []]; vm_compute; intros H;
    first [reflexivity | discriminate H].
Qed.

Lemma prefix_app (a b : string) : String.prefix a (a ++ b) = true.
Proof.
  induction a as [|c a IH]; [now destruct b|]. cbn [append String.prefix].
  destruct (ascii_dec c c); [exact IH | congruence].
Qed.

(** X14: the key under which a feed's cursor is stored is the tag
    [sec_feed_last_] followed by 40 hexadecimal digits: 54 characters, all of
    them letters, digits or underscores, whatever the feed address. *)
Theorem feedKey_shape (url : string) :
  String.prefix "sec_feed_last_" (feedKey url) = true
  /\ length (chars (feedKey url)) = 54%nat
  /\ Forall (fun c => Regex.isWordChar c = true) (chars (feedKey url)).
Proof.
  unfold feedKey. destruct (hex_shape url) as [Hl Hf].
  split; [apply prefix_app|]. rewrite chars_app, length_app, Hl, Forall_app.
  split; [reflexivity|]. split.
  - repeat constructor.
  - eapply Forall_impl; [|exact Hf]. apply lower_hex_is_word.
Qed.

(** ** The list of feeds *)

Lemma existsb_eqb_in (x : string) (l : list string) :
  existsb (String.eqb x) l = true <-> In x l.
Proof.
  rewrite existsb_exists. split.
  - intros (y & Hy & E). apply String.eqb_eq in E. now subst.
  - intros H. exists x. split; [exact H | apply String.eqb_refl].
Qed.

Lemma unique_spec (l : list string) :
  forall seen,
    NoDup (unique seen l)
    /\ forall u, In u (unique seen l) <-> In u l /\ ~ In u seen.
Proof.
  induction l as [|x l IH]; intros seen; cbn [unique].
  - split; [constructor|]. intros u. simpl. tauto.
  - destruct (existsb (String.eqb x) seen) eqn:E.
    + apply existsb_eqb_in in E. destruct (IH seen) as [Hnd Hin].
      split; [exact Hnd|]. intros u. rewrite Hin. simpl.
      split; [tauto|]. intros [[<-|H] Hn]; [contradiction | tauto].
    + assert (Hx : ~ In x seen).
      { intros H. apply existsb_eqb_in in H. congruence. }
      destruct (IH (x :: seen)) as [Hnd Hin]. split.
      * constructor; [|exact Hnd]. rewrite Hin. simpl. tauto.
      * intros u. simpl. rewrite Hin. simpl.
        destruct (string_dec x u) as [<-|Hxu]; tauto.
Qed.

Lemma feeds_spec (startUrls cikOrTickerList : list string) :
  NoDup (feeds startUrls cikOrTickerList)
  /\ forall u,
       In u (feeds startUrls cikOrTickerList) <->
       In u startUrls \/ In u (builtFeeds cikOrTickerList).
Proof.
  unfold feeds. destruct (unique_spec (startUrls ++ builtFeeds cikOrTickerList) [])
    as [Hnd Hin].
  split; [exact Hnd|]. intros u. rewrite Hin, in_app_iff. simpl. tauto.
Qed.

(** X15: the list of feeds holds every address of [startUrls] and every
    address built from [cikOrTickerList], nothing else, and each address
    once, even when it is listed twice or both given and built. *)
Theorem feeds_are_distinct (startUrls cikOrTickerList : list string) :
  NoDup (feeds startUrls cikOrTickerList)
  /\ forall u,
       In u (feeds startUrls cikOrTickerList) <->
       In u startUrls \/ exists id, In id cikOrTickerList /\ u = feed_template id.
Proof.
  destruct (feeds_spec startUrls cikOrTickerList) as [Hnd Hin].
  split; [exact Hnd|]. intros u. rewrite Hin.
  assert (Hb : In u (builtFeeds cikOrTickerList) <->
               exists id, In id cikOrTickerList /\ u = feed_template id).
  { unfold builtFeeds. destruct cikOrTickerList as [|c cs].
    - simpl. split; [tauto | intros (id & [] & _)].
    - rewrite in_map_iff. split; intros (id & H1 & H2); exists id; auto. }
  rewrite Hb. tauto.
Qed.

Lemma feeds_empty (startUrls cikOrTickerList : list string) :
  feeds startUrls cikOrTickerList = [] <-> startUrls = [] /\ cikOrTickerList = [].
Proof.
  destruct (feeds_spec startUrls cikOrTickerList) as [_ Hin]. split.
  - intros E. rewrite E in Hin. split.
    + destruct startUrls as [|u us]; [reflexivity|].
      destruct (proj2 (Hin u)). left. now left.
    + destruct cikOrTickerList as [|c cs]; [reflexivity|].
      destruct (proj2 (Hin (feed_template c))). right. now left.
  - intros [-> ->]. reflexivity.
Qed.

(** X16: the program exits with code 1, before any request, exactly when
    [startUrls] and [cikOrTickerList] are both empty; otherwise the crawler
    receives one request per distinct feed address, in the order of the
    list of feeds. *)
Theorem startup_requests (startUrls cikOrTickerList : list string) :
  (startup startUrls cikOrTickerList = Exit 1 <->
   startUrls = [] /\ cikOrTickerList = [])
  /\ (forall code, startup startUrls cikOrTickerList = Exit code -> code = 1)
  /\ (forall requests,
        startup startUrls cikOrTickerList = Crawl requests ->
        requests <> []
        /\ map req_url requests = feeds startUrls cikOrTickerList
        /\ NoDup (map req_url requests)).
Proof.
  pose proof (feeds_empty startUrls cikOrTickerList) as He.
  destruct (feeds_spec startUrls cikOrTickerList) as [Hnd _].
  unfold startup. destruct (feeds startUrls cikOrTickerList) as [|f fs] eqn:Ef.
  - split; [|split].
    + split; [intros _; now apply He | reflexivity].
    + now intros code [= <-].
    + discriminate.
  - split; [|split].
    + split; [discriminate|]. intros H. apply He in H. discriminate.
    + discriminate.
    + intros requests [= <-]. split; [discriminate|].
      assert (Eu : map req_url (startRequests (f :: fs)) = f :: fs).
      { unfold startRequests. rewrite map_map. cbn [req_url]. apply map_id. }
      change ({| req_url := f; req_company := company_of f |} :: startRequests fs)
        with (startRequests (f :: fs)).
      rewrite Eu. now split.
Qed.

(** ** The company of a request *)

Lemma escape_roundtrip (c : ascii) :
  URI.unreserved c = false -> (N_of_ascii c < 128)%N ->
  URI.hex_value (URI.hex_upper (N_of_ascii c / 16)) = Some (N_of_ascii c / 16)%N
  /\ URI.hex_value (URI.hex_upper (N_of_ascii c mod 16)) = Some (N_of_ascii c mod 16)%N
  /\ ascii_of_N (16 * (N_of_ascii c / 16) + N_of_ascii c mod 16) = c.
Proof.
  destruct c as [[] [] [] [] [] [] [] []]; vm_compute; intros H1 H2;
    first [discriminate H1 | discriminate H2 | repeat split].
Qed.

Lemma unreserved_plain (c : ascii) :
  URI.unreserved c = true ->
  Ascii.eqb c "%" = false /\ Ascii.eqb c "&" = false.
Proof.
  intros H. split.
  - destruct (Ascii.eqb_spec c "%"); [subst; discriminate H | reflexivity].
  - destruct (Ascii.eqb_spec c "&"); [subst; discriminate H | reflexivity].
Qed.

Lemma escape_no_ampersand (c : ascii) :
  Ascii.eqb (URI.hex_upper (N_of_ascii c / 16)) "&" = false
  /\ Ascii.eqb (URI.hex_upper (N_of_ascii c mod 16)) "&" = false.
Proof. destruct c as [[] [] [] [] [] [] [] []]; vm_compute; split; reflexivity. Qed.

(** Decoding undoes encoding on ASCII text. *)
Lemma decode_encode (s : string) :
  ascii_only s ->
  URI.decodeURIComponent (URI.encodeURIComponent s) = Normal s.
Proof.
  unfold URI.decodeURIComponent, ascii_only.
  induction s as [|c s IH]; intros Ha; [reflexivity|].
  unfold chars in Ha. cbn [list_ascii_of_string] in Ha.
  inversion Ha as [|? ? Hc Hs]; subst. specialize (IH Hs).
  cbn [URI.encodeURIComponent]. destruct (URI.unreserved c) eqn:Eu.
  - destruct (unreserved_plain c Eu) as [Hp _].
    cbn [URI.decode]. rewrite Hp, IH. reflexivity.
  - destruct (escape_roundtrip c Eu Hc) as (Hh & Hl & Hb).
    cbn [URI.decode]. change (Ascii.eqb "%" "%") with true. cbv iota.
    rewrite Hh, Hl.
    assert (Hlt : (16 * (N_of_ascii c / 16) + N_of_ascii c mod 16 <? 128)%N = true).
    { apply N.ltb_lt. rewrite <- N.div_mod by discriminate. exact Hc. }
    rewrite Hlt, Hb, IH. reflexivity.
Qed.

Lemma encode_no_ampersand (s : string) :
  Forall (fun c => negb (Ascii.eqb c "&") = true) (chars (URI.encodeURIComponent s)).
Proof.
  induction s as [|c s IH]; [constructor|].
  cbn [URI.encodeURIComponent]. destruct (URI.unreserved c) eqn:Eu.
  - destruct (unreserved_plain c Eu) as [_ Ha].
    unfold chars in *. cbn [list_ascii_of_string]. constructor; [now rewrite Ha | exact IH].
  - destruct (escape_no_ampersand c) as [H1 H2].
    unfold chars in *. cbn [list_ascii_of_string].
    repeat constructor; try exact IH; try (now rewrite H1); now rewrite H2.
Qed.

Lemma encode_nonempty (s : string) : s <> "" -> URI.encodeURIComponent s <> "".
Proof.
  destruct s as [|c s]; [congruence|]. intros _. cbn [URI.encodeURIComponent].
  destruct (URI.unreserved c); discriminate.
Qed.

Lemma span_stop (p : ascii -> bool) (v rest : string) (c : ascii) :
  Forall (fun x => p x = true) (chars v) -> p c = false ->
  Regex.span p (v ++ String c rest) = (v, String c rest).
Proof.
  intros Hv Hc. induction v as [|x v IH]; cbn [append Regex.span].
  - now rewrite Hc.
  - unfold chars in Hv. cbn [list_ascii_of_string] in Hv.
    inversion Hv as [|? ? Hx Hv']; subst. rewrite Hx, (IH Hv'). reflexivity.
Qed.

Lemma match_cik_template (v : string) :
  v <> "" ->
  Forall (fun c => negb (Ascii.eqb c "&") = true) (chars v) ->
  match_cik ("https://www.sec.gov/cgi-bin/browse-edgar?action=getcompany&CIK="
             ++ v ++ "&output=atom") = Some v.
Proof.
  intros Hne Hv.
  assert (Hat : cik_at ("CIK=" ++ v ++ "&output=atom") = Some v).
  { unfold cik_at. cbn [append Regex.match_lit].
    change (Ascii.eqb (JS.lower_ascii "C") (JS.lower_ascii "C")) with true.
    change (Ascii.eqb (JS.lower_ascii "I") (JS.lower_ascii "I")) with true.
    change (Ascii.eqb (JS.lower_ascii "K") (JS.lower_ascii "K")) with true.
    change (Ascii.eqb (JS.lower_ascii "=") (JS.lower_ascii "=")) with true.
    cbv iota. change ("&output=atom") with (String "&" "output=atom").
    rewrite span_stop; [|exact Hv | reflexivity].
    destruct (String.eqb_spec v ""); [contradiction | reflexivity]. }
  set (tail := ("CIK=" ++ v ++ "&output=atom")%string) in *.
  change ("https://www.sec.gov/cgi-bin/browse-edgar?action=getcompany&CIK="
          ++ v ++ "&output=atom")%string
    with ("https://www.sec.gov/cgi-bin/browse-edgar?action=getcompany&" ++ tail)%string.
  assert (Hstep : forall c s, cik_at (String c s) = None ->
                              match_cik (String c s) = match_cik s).
  { intros c s E. cbn [match_cik]. now rewrite E. }
  cbn [append].
  repeat (rewrite Hstep; [|subst tail; reflexivity]).
  destruct tail as [|c t] eqn:Et; [discriminate Hat|].
  cbn [match_cik]. now rewrite Hat.
Qed.

(** X17: a feed built from an entry of [cikOrTickerList] gets that entry
    back as the company of its request: the identifier survives the
    percent-encoding of the address and the decoding of the [CIK]
    parameter.  (Stated for non-empty ASCII identifiers.) *)
Theorem built_feed_company (id : string) :
  id <> "" -> ascii_only id ->
  company_of (feed_template id) = Some id.
Proof.
  intros Hne Ha. unfold company_of, feed_template.
  rewrite match_cik_template.
  - now rewrite decode_encode.
  - now apply encode_nonempty.
  - apply encode_no_ampersand.
Qed.

Lemma built_feed_company_witness :
  company_of (feed_template "BRK.A & co/1") = Some "BRK.A & co/1".
Proof.
  apply built_feed_company; [discriminate|].
  unfold ascii_only. repeat constructor.
Defined.

Lemma match_lit_cik (s rest : string) (last : option ascii) :
  Regex.match_lit None "CIK=" s = Some (last, rest) ->
  String.prefix "cik=" (JS.toLowerCase s) = true.
Proof.
  destruct s as [|c1 [|c2 [|c3 [|c4 s]]]]; cbn [Regex.match_lit];
    try discriminate;
    repeat (match goal with
            | |- context [if ?b then _ else _] => destruct b eqn:?; try discriminate
            end).
  intros _.
  repeat match goal with
         | H : Ascii.eqb _ _ = true |- _ => apply Ascii.eqb_eq in H
         end.
  cbn [JS.toLowerCase].
  repeat match goal with
         | H : _ = JS.lower_ascii _ |- _ => rewrite <- H; clear H
         end.
  now destruct (JS.toLowerCase s).
Qed.

Lemma match_cik_found (u v : string) :
  match_cik u = Some v ->
  v <> "" /\ JS.includes (JS.toLowerCase u) "cik=" = true.
Proof.
  induction u as [|c u IH]; cbn [match_cik].
  - unfold cik_at. cbn [Regex.match_lit]. discriminate.
  - destruct (cik_at (String c u)) as [v'|] eqn:E.
    + intros [= <-]. unfold cik_at in E.
      destruct (Regex.match_lit None "CIK=" (String c u)) as [[l rest]|] eqn:Em;
        [|discriminate].
      destruct (Regex.span _ rest) as [value r]. 
      destruct (String.eqb_spec value ""); [discriminate|]. injection E as <-.
      split; [assumption|]. apply match_lit_cik in Em.
      change (JS.toLowerCase (String c u))
        with (String (JS.lower_ascii c) (JS.toLowerCase u)) in *.
      cbn [JS.includes]. now rewrite Em.
    + intros H. destruct (IH H) as [Hv Hi]. split; [exact Hv|].
      cbn [JS.toLowerCase JS.includes]. rewrite Hi. apply orb_true_r.
Qed.

Lemma emit_nonempty (c : ascii) (r : completion string) (x : string) :
  URI.emit c r = Normal x -> x <> "".
Proof. destruct r; cbn; [intros [= <-]; discriminate | discriminate]. Qed.

Lemma decode_nonempty (v x : string) :
  v <> "" -> URI.decodeURIComponent v = Normal x -> x <> "".
Proof.
  unfold URI.decodeURIComponent.
  destruct v as [|c1 v]; [congruence|]. intros _. cbn [URI.decode].
  destruct (Ascii.eqb c1 "%"); [|apply emit_nonempty].
  destruct v as [|c2 v]; cbn [URI.decode]; [discriminate|].
  destruct (URI.hex_value c2) as [h|]; [|discriminate].
  destruct v as [|c3 v]; cbn [URI.decode]; [discriminate|].
  destruct (URI.hex_value c3) as [l|]; [|discriminate].
  destruct (_ <? 128)%N; [apply emit_nonempty|].
  destruct (URI.lead _) as [[[more lo] hi]|]; [apply emit_nonempty | discriminate].
Qed.

(** X18: a request only gets a company when its address contains [CIK=]
    in some letter case, and the company is then never the empty string; an
    address without such a parameter, or with a value that is not a valid
    percent-encoding, leaves the company null. *)
Theorem company_comes_from_cik (u c : string) :
  company_of u = Some c ->
  c <> "" /\ JS.includes (JS.toLowerCase u) "cik=" = true.
Proof.
  unfold company_of. destruct (match_cik u) as [v|] eqn:Em; [|discriminate].
  destruct (match_cik_found u v Em) as [Hv Hi].
  destruct (URI.decodeURIComponent v) as [x|] eqn:Ed; [|discriminate].
  intros [= <-]. split; [|exact Hi]. now apply (decode_nonempty v).
Qed.

Lemma company_comes_from_cik_witness :
  "0000320193" <> ""
  /\ JS.includes (JS.toLowerCase Sample.apple) "cik=" = true.
Proof.
  apply (company_comes_from_cik Sample.apple "0000320193").
  vm_compute. reflexivity.
Defined.

(** ** What the parser hands over *)

Lemma trimStart_clean (s : string) : starts_clean (trimStart s).
Proof.
  induction s as [|c s IH]; cbn [trimStart]; [exact I|].
  destruct (Regex.isSpace c) eqn:E; [exact IH | exact E].
Qed.

Lemma trimStart_of_clean (s : string) : starts_clean s -> trimStart s = s.
Proof. destruct s as [|c s]; cbn; [reflexivity | now intros ->]. Qed.

Lemma trimEnd_clean (s : string) : starts_clean s -> starts_clean (trimEnd s).
Proof.
  destruct s as [|c s]; cbn [trimEnd starts_clean]; [auto|].
  intros H. rewrite H. exact H.
Qed.

Lemma trimEnd_idem (s : string) : trimEnd (trimEnd s) = trimEnd s.
Proof.
  induction s as [|c s IH]; [reflexivity|]. cbn [trimEnd].
  destruct (Regex.isSpace c && (trimEnd s =? "")%string) eqn:E; [reflexivity|].
  cbn [trimEnd]. now rewrite IH, E.
Qed.

Lemma trim_idem (s : string) : trim (trim s) = trim s.
Proof.
  unfold trim.
  rewrite (trimStart_of_clean (trimEnd (trimStart s)))
    by apply trimEnd_clean, trimStart_clean.
  apply trimEnd_idem.
Qed.

Lemma text_or_null_trim (s : string) : null_or_text (text_or_null (trim s)).
Proof.
  unfold text_or_null. destruct (String.eqb_spec (trim s) ""); [now left|].
  right. exists (trim s). repeat split; auto. apply trim_idem.
Qed.

Lemma text_or_null_first (a b : string) :
  null_or_text (text_or_null (first_nonempty (trim a) (trim b))).
Proof.
  unfold first_nonempty. destruct (trim a =? "")%string; apply text_or_null_trim.
Qed.

Lemma null_or_text_or_null (v : option string) :
  null_or_text v -> JS.or_null v = v /\ (JS.truthy v = true <-> v <> None).
Proof.
  intros [->|(s & -> & Hs & _)].
  - split; [reflexivity|]. split; [discriminate | congruence].
  - unfold JS.or_null. rewrite (truthy_some s Hs). split; [reflexivity|].
    split; [discriminate | reflexivity].
Qed.

(** X19: every entry that [parseAtom] returns has a string as id, and its
    title, timestamp, summary and content are each [null] or a non-empty
    text without blanks at either end; so the [|| null] of the
    normalisation changes neither summary nor content, and a timestamp is
    parsed exactly when it is present. *)
Theorem parsed_entries_are_clean (entryEls : list AtomElement)
        (itemEls : list RssElement) :
  Forall (fun r =>
            r_id r <> None
            /\ null_or_text (r_title r)
            /\ null_or_text (r_updated r)
            /\ null_or_text (r_summary r)
            /\ null_or_text (r_content r)
            /\ JS.or_null (r_summary r) = r_summary r
            /\ JS.or_null (r_content r) = r_content r
            /\ (JS.truthy (r_updated r) = true <-> r_updated r <> None))
         (parseAtom entryEls itemEls).
Proof.
  assert (Hall : forall r,
             r_id r <> None -> null_or_text (r_title r) ->
             null_or_text (r_updated r) -> null_or_text (r_summary r) ->
             null_or_text (r_content r) ->
             r_id r <> None
             /\ null_or_text (r_title r) /\ null_or_text (r_updated r)
             /\ null_or_text (r_summary r) /\ null_or_text (r_content r)
             /\ JS.or_null (r_summary r) = r_summary r
             /\ JS.or_null (r_content r) = r_content r
             /\ (JS.truthy (r_updated r) = true <-> r_updated r <> None)).
  { intros r H1 H2 H3 H4 H5. repeat split; auto;
      try apply (null_or_text_or_null _ H4); try apply (null_or_text_or_null _ H5);
      apply (null_or_text_or_null _ H3). }
  assert (He : Forall (fun r => r_id r <> None
                                /\ null_or_text (r_title r)
                                /\ null_or_text (r_updated r)
                                /\ null_or_text (r_summary r)
                                /\ null_or_text (r_content r)
                                /\ JS.or_null (r_summary r) = r_summary r
                                /\ JS.or_null (r_content r) = r_content r
                                /\ (JS.truthy (r_updated r) = true
                                    <-> r_updated r <> None))
                     (map parse_entry entryEls)).
  { apply Forall_forall. intros r Hr. apply in_map_iff in Hr as (el & <- & _).
    apply Hall; cbn [parse_entry r_id r_title r_updated r_summary r_content].
    - discriminate.
    - apply text_or_null_trim.
    - apply text_or_null_first.
    - apply text_or_null_first.
    - apply text_or_null_trim. }
  unfold parseAtom. destruct (map parse_entry entryEls) as [|e es]; [|exact He].
  apply Forall_forall. intros r Hr. apply in_map_iff in Hr as (el & <- & _).
  apply Hall; cbn [parse_item r_id r_title r_updated r_summary r_content].
  - discriminate.
  - apply text_or_null_trim.
  - apply text_or_null_trim.
  - apply text_or_null_trim.
  - now left.
Qed.

Lemma or_else_some (a d : string) : JS.or_else (Some a) d = first_nonempty a d.
Proof.
  unfold JS.or_else, JS.truthy, first_nonempty. now destruct (a =? "")%string.
Qed.

Lemma or_else_text (a d : string) :
  JS.or_else (text_or_null a) d = first_nonempty a d.
Proof.
  unfold text_or_null, first_nonempty.
  destruct (a =? "")%string eqn:E; [reflexivity|].
  unfold JS.or_else, JS.truthy. now rewrite E.
Qed.

(** X20: RSS items are read only when the document has no Atom entry, and
    then an item with a guid or a link is never given a hashed id: its
    canonical id is the trimmed guid, else the trimmed link, and only an
    item with neither gets the digest of its title or description. *)
Theorem rss_item_ids (entryEls : list AtomElement) (itemEls : list RssElement) :
  (entryEls <> [] ->
   parseAtom entryEls itemEls = map parse_entry entryEls)
  /\ (entryEls = [] ->
      parseAtom entryEls itemEls = map parse_item itemEls
      /\ map canonical_id (parseAtom entryEls itemEls)
         = map (fun el =>
                  first_nonempty (trim (i_guid el))
                    (first_nonempty (trim (i_link el))
                       (SHA1.hex (first_nonempty (trim (i_title el))
                                    (trim (i_description el))))))
             itemEls).
Proof.
  split.
  - intros Hne. unfold parseAtom. destruct entryEls; [congruence | reflexivity].
  - intros ->. split; [reflexivity|]. unfold parseAtom. cbn [map].
    rewrite map_map. apply map_ext. intros el.
    unfold canonical_id, parse_item. cbn [r_id r_link r_title r_summary].
    rewrite !or_else_text, !or_else_some.
    assert (Hd : first_nonempty (trim (i_description el)) "" = trim (i_description el)).
    { unfold first_nonempty. now destruct (String.eqb_spec (trim (i_description el)) ""). }
    rewrite Hd. unfold first_nonempty.
    destruct (trim (i_guid el) =? "")%string eqn:Eg; [|now rewrite Eg].
    destruct (trim (i_link el) =? "")%string eqn:El; rewrite ?El; reflexivity.
Qed.

(** ** When a poll returns *)

Lemma normalize_entry_parses (Date_parse : string -> option Z)
      (e : RawEntry) (n : Entry) :
  normalize_entry Date_parse e = Normal n -> parses Date_parse e.
Proof.
  unfold normalize_entry, parses. intros H Ht. rewrite Ht in H.
  destruct (Date_parse _); [discriminate | discriminate H].
Qed.

(** X21: a poll returns, rather than throws, exactly when every timestamp
    that is present in the batch reads as a date. *)
Theorem poll_returns_iff_timestamps_parse (Date_parse : string -> option Z)
        (fetch_text : string -> option string) (input : Input) (url : string)
        (userData_company : option string)
        (entries : list RawEntry) (kv : option Stored) :
  (exists out,
      requestHandler Date_parse fetch_text input url userData_company entries kv
      = Normal out)
  <-> Forall (parses Date_parse) entries.
Proof.
  split.
  - intros (out & Hr). destruct entries as [|e0 es] eqn:Ee; [constructor|].
    rewrite <- Ee in *.
    assert (Hne : entries <> []) by (rewrite Ee; discriminate).
    destruct (requestHandler_inv _ _ _ _ _ _ _ _ Hne Hr) as (w & _ & _ & Hw & _).
    apply toConsider_inv in Hw as (ns & Hns & _).
    apply normalize_pointwise in Hns.
    clear -Hns. induction Hns as [|r n rs ns Hr _ IH]; constructor; auto.
    now apply (normalize_entry_parses _ r n).
  - intros Hall. destruct entries as [|e0 es] eqn:Ee; [now eexists|].
    rewrite <- Ee in *.
    assert (Hne : entries <> []) by (rewrite Ee; discriminate).
    destruct (normalize_ok Date_parse entries Hall) as (ns & Hns & _).
    pose proof (toConsider_of_normalized Date_parse input _ _ Hns) as Hw.
    destruct (toConsider_facts _ _ _ _ Hw) as (_ & _ & Hnonempty).
    destruct (requestHandler_latest Date_parse fetch_text input url
                userData_company entries kv _ Hw (Hnonempty Hne))
      as (older & latest & _ & _ & _ & Hr).
    eexists. exact Hr.
Qed.

(** ** The default filter *)

Lemma prefix_chars (sub s : string) (c : ascii) :
  String.prefix sub s = true -> In c (chars sub) -> In c (chars s).
Proof.
  revert s. induction sub as [|a sub IH]; intros s Hp Hc; [destruct Hc|].
  destruct s as [|b s]; [discriminate Hp|]. cbn [String.prefix] in Hp.
  destruct (ascii_dec a b) as [<-|]; [|discriminate Hp].
  unfold chars in *. cbn [list_ascii_of_string] in *.
  destruct Hc as [<-|Hc]; [now left | right; now apply IH].
Qed.

Lemma includes_chars (s sub : string) (c : ascii) :
  JS.includes s sub = true -> In c (chars sub) -> In c (chars s).
Proof.
  induction s as [|a s IH]; cbn [JS.includes]; intros Hi Hc.
  - rewrite orb_false_r in Hi. now apply (prefix_chars sub "").
  - apply orb_true_iff in Hi as [Hp|Hi]; [now apply (prefix_chars sub)|].
    unfold chars in *. cbn [list_ascii_of_string]. right. now apply IH.
Qed.

Lemma chars_lower (s : string) : chars (JS.toLowerCase s) = map JS.lower_ascii (chars s).
Proof.
  induction s as [|c s IH]; [reflexivity|].
  unfold chars in *. cbn [JS.toLowerCase list_ascii_of_string map]. now rewrite IH.
Qed.

Lemma form_label_has_no_dash (head blanks digits letter : string) :
  JS.toLowerCase head = "form" ->
  Forall (fun c => Regex.isSpace c = true) (chars blanks) ->
  Forall (fun c => Regex.isDigit c = true) (chars digits) ->
  (letter = "" \/ exists c, letter = String c "" /\ Regex.isLetter c = true) ->
  ~ In "-"%char (chars (JS.toLowerCase (head ++ blanks ++ digits ++ letter))).
Proof.
  intros Hh Hb Hd Hl. rewrite !toLowerCase_app, !chars_app, Hh, !chars_lower.
  rewrite !in_app_iff. intros [H|[H|[H|H]]].
  - vm_compute in H. intuition discriminate.
  - apply in_map_iff in H as (c & Ec & Hc). rewrite Forall_forall in Hb.
    specialize (Hb c Hc). destruct (lower_ascii_classes c) as (_ & _ & Hs & _).
    rewrite <- Hs, Ec in Hb. discriminate.
  - apply in_map_iff in H as (c & Ec & Hc). rewrite Forall_forall in Hd.
    specialize (Hd c Hc). destruct (lower_ascii_classes c) as (Hs & _).
    rewrite <- Hs, Ec in Hd. discriminate.
  - destruct Hl as [->|(c & -> & Hc)]; [destruct H|].
    destruct H as [Ec|[]]. destruct (lower_ascii_classes c) as (_ & Hs & _).
    rewrite <- Hs, Ec in Hc. discriminate.
Qed.

(** X22: with the default [filingTypes] an entry passes the filter exactly
    when the classifier answers [10-K], [10-Q] or [8-K]; entries of any
    other type, of a [Form] type or of unknown type are skipped. *)
Theorem default_filter_keeps_three_types (title summary : option string) :
  passes_filter default_filingTypes (detectFilingType title summary) = true
  <-> In (detectFilingType title summary) [Some "10-K"; Some "10-Q"; Some "8-K"].
Proof.
  split.
  - destruct (detectFilingType title summary) as [label|] eqn:Ed;
      [|vm_compute; discriminate].
    assert (Hshape : In label labels
                     \/ exists s', Regex.form_at s' = Some label).
    { unfold detectFilingType in Ed.
      destruct (first_token tokens _) as [l|] eqn:Et.
      - injection Ed as <-. left. apply first_token_in in Et.
        vm_compute in Et. unfold labels. simpl. intuition.
      - right. now apply match_form_shape in Ed. }
    destruct Hshape as [Hl|(s' & Hs')];
      [|apply form_at_shape in Hs'
          as (h & bl & dg & lt & -> & Hh & Hb & Hd & _ & Hlt)].
    + unfold labels in Hl. simpl in Hl.
      repeat (destruct Hl as [<-|Hl];
              [vm_compute; first [intros _; tauto | discriminate]|]).
      destruct Hl.
    + intros Hp. exfalso.
      apply passes_filter_includes in Hp as (t & Ht & Hi); [|discriminate].
      apply (form_label_has_no_dash h bl dg lt Hh Hb Hd Hlt).
      rewrite or_else_some in Hi.
      assert (Hne : (h ++ bl ++ dg ++ lt)%string <> "").
      { destruct h; [discriminate Hh | discriminate]. }
      unfold first_nonempty in Hi.
      destruct (String.eqb_spec (h ++ bl ++ dg ++ lt)%string ""); [contradiction|].
      apply (includes_chars _ _ "-"%char Hi).
      unfold default_filingTypes in Ht. simpl in Ht.
      destruct Ht as [<-|[<-|[<-|[]]]]; vm_compute; tauto.
  - intros [<-|[<-|[<-|[]]]]; reflexivity.
Qed.
